(** * Governance: proposal registry and voting ledger

    A shallow embedding of [contracts/Governance.sol] (Solidity ^0.8.19).

    - [uint256] and [address] values are natural numbers ([N]) together with
      their upper bounds; Solidity 0.8 arithmetic is checked, so an addition
      that leaves the range aborts the call with [Panic 0x11].
    - A Solidity [mapping] is a finite map read with a default value.
    - Contract code lives in a small state-and-error monad [M]: a call reads
      [msg.sender] and [block.timestamp] from its environment, threads the
      storage and the event log, and either finishes or reverts.
    - [call] is the transaction boundary: a reverted call leaves the storage
      as it was before the call. *)

From Stdlib Require Import NArith Lia.
From stdpp Require Import gmap strings list fin_maps.

Local Open Scope string_scope.
Local Open Scope N_scope.

(** ** Machine types *)

Abbreviation uint256 := N (only parsing).
Abbreviation address := N (only parsing).

Definition MAX_UINT256 : N := 2 ^ 256 - 1.
Definition MAX_ADDRESS : N := 2 ^ 160 - 1.

Inductive Error : Type :=
| Revert (reason : string)
| Panic (code : N).

(** The arithmetic overflow panic code of Solidity 0.8. *)
Definition OVERFLOW : Error := Panic 17.

(** ** The [Proposal] struct *)

Module Proposal.

Record t : Type := mk {
  id : uint256;
  title : string;
  description : string;
  proposer : address;
  endDate : uint256;
  votesFor : uint256;
  votesAgainst : uint256;
  totalVoters : uint256;
  isExecuted : bool;
  hasVoted : gmap N bool
}.

(** The value of a storage slot that was never written. *)
Definition zero : t := mk 0 "" "" 0 0 0 0 0 false ∅.

Definition set_id (v : uint256) (p : t) : t :=
  mk v (title p) (description p) (proposer p) (endDate p) (votesFor p)
     (votesAgainst p) (totalVoters p) (isExecuted p) (hasVoted p).
Definition set_title (v : string) (p : t) : t :=
  mk (id p) v (description p) (proposer p) (endDate p) (votesFor p)
     (votesAgainst p) (totalVoters p) (isExecuted p) (hasVoted p).
Definition set_description (v : string) (p : t) : t :=
  mk (id p) (title p) v (proposer p) (endDate p) (votesFor p)
     (votesAgainst p) (totalVoters p) (isExecuted p) (hasVoted p).
Definition set_proposer (v : address) (p : t) : t :=
  mk (id p) (title p) (description p) v (endDate p) (votesFor p)
     (votesAgainst p) (totalVoters p) (isExecuted p) (hasVoted p).
Definition set_endDate (v : uint256) (p : t) : t :=
  mk (id p) (title p) (description p) (proposer p) v (votesFor p)
     (votesAgainst p) (totalVoters p) (isExecuted p) (hasVoted p).
Definition set_votesFor (v : uint256) (p : t) : t :=
  mk (id p) (title p) (description p) (proposer p) (endDate p) v
     (votesAgainst p) (totalVoters p) (isExecuted p) (hasVoted p).
Definition set_votesAgainst (v : uint256) (p : t) : t :=
  mk (id p) (title p) (description p) (proposer p) (endDate p) (votesFor p)
     v (totalVoters p) (isExecuted p) (hasVoted p).
Definition set_totalVoters (v : uint256) (p : t) : t :=
  mk (id p) (title p) (description p) (proposer p) (endDate p) (votesFor p)
     (votesAgainst p) v (isExecuted p) (hasVoted p).
Definition set_isExecuted (v : bool) (p : t) : t :=
  mk (id p) (title p) (description p) (proposer p) (endDate p) (votesFor p)
     (votesAgainst p) (totalVoters p) v (hasVoted p).
(** [hasVoted[a] = v] *)
Definition set_hasVoted (a : address) (v : bool) (p : t) : t :=
  mk (id p) (title p) (description p) (proposer p) (endDate p) (votesFor p)
     (votesAgainst p) (totalVoters p) (isExecuted p) (<[a := v]> (hasVoted p)).

(** [hasVoted[a]], false where nothing was stored. *)
Definition voted (p : t) (a : address) : bool := default false (hasVoted p !! a).

End Proposal.

(** ** Contract storage, events, execution monad *)

Record Storage : Type := mkStorage {
  proposals : gmap N Proposal.t;
  proposalCount : uint256
}.

(** [proposals[i]]: the stored struct, or the zero struct. *)
Definition slot (st : Storage) (i : uint256) : Proposal.t :=
  default Proposal.zero (proposals st !! i).

Inductive Event : Type :=
| ProposalCreated (proposalId : uint256) (title : string) (proposer : address)
    (endDate : uint256)
| VoteCast (proposalId : uint256) (voter : address) (support : bool)
    (votesFor votesAgainst : uint256)
| ProposalExecuted (proposalId : uint256) (passed : bool).

Record Env : Type := mkEnv {
  msg_sender : address;
  block_timestamp : uint256
}.

Record World : Type := mkWorld {
  store : Storage;
  logs : list Event
}.

(** A call either finishes with a value, or reverts; [dirty] is the world at
    the moment of the revert, which the transaction boundary throws away. *)
Inductive Res (A : Type) : Type :=
| Done (a : A) (w : World)
| Reverted (e : Error) (dirty : World).
Arguments Done {A} a w.
Arguments Reverted {A} e dirty.

Definition M (A : Type) : Type := Env → World → Res A.

#[global] Instance M_ret : MRet M := λ A a _ w, Done a w.
#[global] Instance M_bind : MBind M := λ A B f m env w,
  match m env w with
  | Done a w' => f a env w'
  | Reverted e d => Reverted e d
  end.

Definition require (cond : bool) (reason : string) : M unit :=
  λ _ w, if cond then Done () w else Reverted (Revert reason) w.

Definition sender : M address := λ env w, Done (msg_sender env) w.
Definition timestamp : M uint256 := λ env w, Done (block_timestamp env) w.

(** Checked [a + b] on [uint256]. *)
Definition checked_add (a b : uint256) : M uint256 :=
  λ _ w, if a + b <=? MAX_UINT256 then Done (a + b) w else Reverted OVERFLOW w.

Definition load_proposalCount : M uint256 :=
  λ _ w, Done (proposalCount (store w)) w.
Definition store_proposalCount (v : uint256) : M unit :=
  λ _ w, Done () (mkWorld (mkStorage (proposals (store w)) v) (logs w)).

(** Read through a storage reference [proposals[i]]. *)
Definition load {A} (i : uint256) (field : Proposal.t → A) : M A :=
  λ _ w, Done (field (slot (store w) i)) w.
(** Write through a storage reference [proposals[i]]. *)
Definition assign (i : uint256) (upd : Proposal.t → Proposal.t) : M unit :=
  λ _ w, Done () (mkWorld
    (mkStorage (<[i := upd (slot (store w) i)]> (proposals (store w)))
               (proposalCount (store w)))
    (logs w)).

Definition emit (ev : Event) : M unit :=
  λ _ w, Done () (mkWorld (store w) (logs w ++ [ev])).

(** [x++] on a [uint256] field of [proposals[i]]. *)
Definition increment (i : uint256) (field : Proposal.t → uint256)
    (set : uint256 → Proposal.t → Proposal.t) : M unit :=
  v ← load i field; v' ← checked_add v 1; assign i (set v').

(** ** The contract *)

Module Governance.

Definition VOTING_PERIOD : uint256 := 14 * 86400.
Definition MIN_VOTES_TO_PASS : uint256 := 1000.

(** *** Modifiers *)

Definition validProposal {A} (proposalId : uint256) (body : M A) : M A :=
  count ← load_proposalCount;
  require (proposalId <? count) "Proposal does not exist";;
  body.

Definition votingPeriod {A} (proposalId : uint256) (body : M A) : M A :=
  now ← timestamp;
  deadline ← load proposalId Proposal.endDate;
  require (now <=? deadline) "Voting period has ended";;
  body.

Definition notExecuted {A} (proposalId : uint256) (body : M A) : M A :=
  executed ← load proposalId Proposal.isExecuted;
  require (negb executed) "Proposal already executed";;
  body.

(** *** Constructor *)

Definition constructor : Storage := mkStorage ∅ 0.

(** *** Proposal functions *)

Definition createProposal (title description : string) : M uint256 :=
  require (0 <? N.of_nat (String.length title)) "Title cannot be empty";;
  require (0 <? N.of_nat (String.length description))
    "Description cannot be empty";;
  (* uint256 proposalId = proposalCount++; *)
  proposalId ← load_proposalCount;
  count' ← checked_add proposalId 1;
  store_proposalCount count';;
  let proposal := proposalId in
  assign proposal (Proposal.set_id proposalId);;
  assign proposal (Proposal.set_title title);;
  assign proposal (Proposal.set_description description);;
  who ← sender;
  assign proposal (Proposal.set_proposer who);;
  now ← timestamp;
  deadline ← checked_add now VOTING_PERIOD;
  assign proposal (Proposal.set_endDate deadline);;
  assign proposal (Proposal.set_votesFor 0);;
  assign proposal (Proposal.set_votesAgainst 0);;
  assign proposal (Proposal.set_totalVoters 0);;
  assign proposal (Proposal.set_isExecuted false);;
  endDate ← load proposal Proposal.endDate;
  emit (ProposalCreated proposalId title who endDate);;
  mret proposalId.

(** *** Voting functions *)

Definition vote (proposalId : uint256) (support : bool) : M unit :=
  validProposal proposalId (votingPeriod proposalId (
    let proposal := proposalId in
    who ← sender;
    already ← load proposal (λ p, Proposal.voted p who);
    require (negb already) "Already voted on this proposal";;
    assign proposal (Proposal.set_hasVoted who true);;
    increment proposal Proposal.totalVoters Proposal.set_totalVoters;;
    (if support
     then increment proposal Proposal.votesFor Proposal.set_votesFor
     else increment proposal Proposal.votesAgainst Proposal.set_votesAgainst);;
    votesFor ← load proposal Proposal.votesFor;
    votesAgainst ← load proposal Proposal.votesAgainst;
    emit (VoteCast proposalId who support votesFor votesAgainst))).

(** The wrappers are written as unqualified calls [vote(proposalId, ...)].
    Here the call is read as an internal call: the body of [vote], modifiers
    included, runs in the frame of the wrapper, with the same [msg.sender]
    and [block.timestamp].  [vote] is declared [external], so the compiler
    does not accept the call in this form; [voteFor_this] below is the
    wrapper with the call made through [this]. *)
Definition voteFor (proposalId : uint256) : M unit :=
  vote proposalId true.

Definition voteAgainst (proposalId : uint256) : M unit :=
  vote proposalId false.

(** *** View functions *)

Definition getProposal (proposalId : uint256)
  : M (uint256 * string * string * address * uint256 * uint256 * uint256
       * uint256 * bool) :=
  validProposal proposalId (
    let proposal := proposalId in
    p ← load proposal (λ p, p);
    mret (Proposal.id p, Proposal.title p, Proposal.description p,
          Proposal.proposer p, Proposal.endDate p, Proposal.votesFor p,
          Proposal.votesAgainst p, Proposal.totalVoters p,
          Proposal.isExecuted p)).

Definition getProposalStatus (proposalId : uint256) : M string :=
  validProposal proposalId (
    let proposal := proposalId in
    executed ← load proposal Proposal.isExecuted;
    if (executed : bool) then
      votesFor ← load proposal Proposal.votesFor;
      votesAgainst ← load proposal Proposal.votesAgainst;
      if votesAgainst <? votesFor
      then (mret "Passed" : M string) else mret "Failed"
    else
      now ← timestamp;
      deadline ← load proposal Proposal.endDate;
      if deadline <? now then
        votesFor ← load proposal Proposal.votesFor;
        votesAgainst ← load proposal Proposal.votesAgainst;
        if (votesAgainst <? votesFor) && (MIN_VOTES_TO_PASS <=? votesFor)
        then (mret "Passed" : M string) else mret "Failed"
      else mret "Active").

Definition hasVoted (proposalId : uint256) (voter : address) : M bool :=
  validProposal proposalId (load proposalId (λ p, Proposal.voted p voter)).

Definition getTotalProposals : M uint256 := load_proposalCount.

End Governance.

(** ** Transactions *)

(** What the caller of an external function observes. *)
Inductive Receipt (A : Type) : Type :=
| Success (result : A) (events : list Event)
| Failure (e : Error).
Arguments Success {A} result events.
Arguments Failure {A} e.

(** An external call: the storage after the call and the receipt.  A revert
    rolls every write of the call back. *)
Definition call {A} (f : M A) (env : Env) (st : Storage) : Storage * Receipt A :=
  match f env (mkWorld st []) with
  | Done a w => (store w, Success a (logs w))
  | Reverted e _ => (st, Failure e)
  end.

(** The error kinds of the specification, as the revert reasons of the
    contract. *)
Definition NotFoundError : Error := Revert "Proposal does not exist".
Definition VotingClosedError : Error := Revert "Voting period has ended".
Definition DuplicateVoteError : Error := Revert "Already voted on this proposal".
Definition ValidationError (e : Error) : Prop :=
  e = Revert "Title cannot be empty" ∨ e = Revert "Description cannot be empty".

(** The external interface of the contract. *)
Inductive Call : Type :=
| CreateProposal (title description : string)
| Vote (proposalId : uint256) (support : bool)
| VoteFor (proposalId : uint256)
| VoteAgainst (proposalId : uint256)
| GetProposal (proposalId : uint256)
| GetProposalStatus (proposalId : uint256)
| HasVoted (proposalId : uint256) (voter : address)
| GetTotalProposals.

(** The storage after one external call. *)
Definition execute (c : Call) (env : Env) (st : Storage) : Storage :=
  match c with
  | CreateProposal t d => (call (Governance.createProposal t d) env st).1
  | Vote i s => (call (Governance.vote i s) env st).1
  | VoteFor i => (call (Governance.voteFor i) env st).1
  | VoteAgainst i => (call (Governance.voteAgainst i) env st).1
  | GetProposal i => (call (Governance.getProposal i) env st).1
  | GetProposalStatus i => (call (Governance.getProposalStatus i) env st).1
  | HasVoted i a => (call (Governance.hasVoted i a) env st).1
  | GetTotalProposals => (call Governance.getTotalProposals env st).1
  end.

(** The environment supplies an [address] and a [uint256]. *)
Definition valid_env (env : Env) : Prop :=
  msg_sender env ≤ MAX_ADDRESS ∧ block_timestamp env ≤ MAX_UINT256.

(** The storage after a sequence of external calls, oldest first. *)
Fixpoint run (trace : list (Env * Call)) (st : Storage) : Storage :=
  match trace with
  | [] => st
  | (env, c) :: rest => run rest (execute c env st)
  end.

(** The states of a deployed contract: the constructor's, and those any
    external call leads to. *)
Inductive reachable : Storage → Prop :=
| reachable_constructor : reachable Governance.constructor
| reachable_call st c env :
    reachable st → valid_env env → reachable (execute c env st).

(** ** Closed forms, invariant and scenarios: definitions *)

(** The struct [createProposal] leaves in slot [i]; the [hasVoted] mapping of
    the slot is not written. *)
Definition created (i : uint256) (title description : string) (env : Env)
    (old : Proposal.t) : Proposal.t :=
  Proposal.mk i title description (msg_sender env)
    (block_timestamp env + Governance.VOTING_PERIOD) 0 0 0 false
    (Proposal.hasVoted old).

(** The struct [vote] leaves behind. *)
Definition voted_on (who : address) (support : bool) (p : Proposal.t)
  : Proposal.t :=
  Proposal.mk (Proposal.id p) (Proposal.title p) (Proposal.description p)
    (Proposal.proposer p) (Proposal.endDate p)
    (if support then Proposal.votesFor p + 1 else Proposal.votesFor p)
    (if support then Proposal.votesAgainst p else Proposal.votesAgainst p + 1)
    (Proposal.totalVoters p + 1) (Proposal.isExecuted p)
    (<[who := true]> (Proposal.hasVoted p)).

Definition nonempty (s : string) : bool := 0 <? N.of_nat (String.length s).

(** The status string the code computes from a stored struct at time [now]. *)
Definition status (now : uint256) (p : Proposal.t) : string :=
  if Proposal.isExecuted p then
    if Proposal.votesAgainst p <? Proposal.votesFor p then "Passed" else "Failed"
  else if Proposal.endDate p <? now then
    if (Proposal.votesAgainst p <? Proposal.votesFor p)
       && (Governance.MIN_VOTES_TO_PASS <=? Proposal.votesFor p)
    then "Passed" else "Failed"
  else "Active".

Record proposal_inv (p : Proposal.t) : Prop := {
  inv_tally :
    Proposal.votesFor p + Proposal.votesAgainst p = Proposal.totalVoters p;
  inv_not_executed : Proposal.isExecuted p = false;
  inv_voters : ∀ a b, Proposal.hasVoted p !! a = Some b →
                      b = true ∧ a ≤ MAX_ADDRESS;
  inv_distinct : Proposal.totalVoters p = N.of_nat (size (Proposal.hasVoted p));
  inv_deadline : Proposal.endDate p ≤ MAX_UINT256
}.

Record inv (st : Storage) : Prop := {
  inv_dense : ∀ i, is_Some (proposals st !! i) ↔ i < proposalCount st;
  inv_id : ∀ i p, proposals st !! i = Some p → Proposal.id p = i;
  inv_proposal : ∀ i p, proposals st !! i = Some p → proposal_inv p
}.

Definition valid_trace (trace : list (Env * Call)) : Prop :=
  Forall (λ step, valid_env step.1) trace.

(** A boolean check of [valid_trace], to evaluate on concrete traces. *)
Definition valid_envb (env : Env) : bool :=
  (msg_sender env <=? MAX_ADDRESS) && (block_timestamp env <=? MAX_UINT256).

(** *** Scenarios *)

Definition day : N := 86400.
Definition t0 : uint256 := 1700000000.
Definition alice : address := 7.
Definition bob : address := 5000.
Definition lower_fees : Call := CreateProposal "Lower fees" "Reduce fees to 0.1%".

(** [n] distinct identities [1..n] make the same call at time [t0]. *)
Definition crowd (n : nat) (c : Call) : list (Env * Call) :=
  map (λ k, (mkEnv (N.of_nat k) t0, c)) (seq 1 n).

(** One proposal, [n] votes for it, then one vote against. *)
Definition ballot (n : nat) : list (Env * Call) :=
  (mkEnv alice t0, lower_fees) :: crowd n (VoteFor 0) ++ [(mkEnv bob t0, VoteAgainst 0)].

Definition registry1 : Storage := run [(mkEnv alice t0, lower_fees)] Governance.constructor.
Definition registry2 : Storage :=
  run [(mkEnv alice t0, lower_fees); (mkEnv alice t0, VoteFor 0);
       (mkEnv bob (t0 + day), Vote 0 false)] Governance.constructor.
Definition registry3 : Storage :=
  run [(mkEnv alice t0, lower_fees); (mkEnv bob t0, lower_fees);
       (mkEnv alice (t0 + day), lower_fees)] Governance.constructor.

(** *** Calls of [vote] from inside the contract *)

Inductive Visibility : Type := External | Public | Internal | Private.

(** [function vote(...) external ...] *)
Definition vote_visibility : Visibility := External.

(** An unqualified call [f(...)] is an internal call; it resolves only to a
    function that is visible inside the contract, which an [external]
    function is not. *)
Definition unqualified_call {A} (v : Visibility) (f : M A) : option (M A) :=
  match v with
  | External => None
  | Public | Internal | Private => Some f
  end.

(** The body of the wrappers exactly as the source has it. *)
Definition voteFor_written (proposalId : uint256) : option (M unit) :=
  unqualified_call vote_visibility (Governance.vote proposalId true).
Definition voteAgainst_written (proposalId : uint256) : option (M unit) :=
  unqualified_call vote_visibility (Governance.vote proposalId false).

(** An external call [this.f(...)], the form in which a contract calls an
    [external] function of its own: the callee runs on the same storage at
    the same [block.timestamp] with the contract, [self], as [msg.sender];
    its writes and events are the caller's, and its revert reverts the
    caller. *)
Definition this_call {A} (self : address) (f : M A) : M A :=
  λ env w, f (mkEnv self (block_timestamp env)) w.

Definition voteFor_this (self : address) (proposalId : uint256) : M unit :=
  this_call self (Governance.vote proposalId true).
Definition voteAgainst_this (self : address) (proposalId : uint256) : M unit :=
  this_call self (Governance.vote proposalId false).

(** The wrapper for one side, through [this]. *)
Definition wrapper_this (self : address) (proposalId : uint256)
    (support : bool) : M unit :=
  if support then voteFor_this self proposalId
  else voteAgainst_this self proposalId.


(** *** What one external call can do to the storage *)

(** [effect env st st']: either nothing, or a proposal created in the next
    free slot, or a vote recorded in an existing slot. *)
Inductive effect (env : Env) (st : Storage) : Storage → Prop :=
| effect_none : effect env st st
| effect_created title description :
    nonempty title = true → nonempty description = true →
    proposalCount st + 1 ≤ MAX_UINT256 →
    block_timestamp env + Governance.VOTING_PERIOD ≤ MAX_UINT256 →
    effect env st
      (mkStorage
         (<[proposalCount st :=
              created (proposalCount st) title description env
                (slot st (proposalCount st))]> (proposals st))
         (proposalCount st + 1))
| effect_voted i support :
    i < proposalCount st →
    block_timestamp env ≤ Proposal.endDate (slot st i) →
    Proposal.voted (slot st i) (msg_sender env) = false →
    effect env st
      (mkStorage (<[i := voted_on (msg_sender env) support (slot st i)]>
                    (proposals st)) (proposalCount st)).

(** The events of a receipt; a reverted call leaves none. *)
Definition events_of {A} (r : Receipt A) : list Event :=
  match r with
  | Success _ evs => evs
  | Failure _ => []
  end.

Definition succeeded {A} (r : Receipt A) : bool :=
  match r with
  | Success _ _ => true
  | Failure _ => false
  end.

(** The number of [createProposal] calls of a trace that succeed. *)
Fixpoint creations (trace : list (Env * Call)) (st : Storage) : N :=
  match trace with
  | [] => 0
  | (env, c) :: rest =>
      (match c with
       | CreateProposal t d =>
           if succeeded (call (Governance.createProposal t d) env st).2
           then 1 else 0
       | _ => 0
       end) + creations rest (execute c env st)
  end.

(** The proposal and the side a call votes for, if it is a vote. *)
Definition vote_of (c : Call) : option (uint256 * bool) :=
  match c with
  | Vote i support => Some (i, support)
  | VoteFor i => Some (i, true)
  | VoteAgainst i => Some (i, false)
  | _ => None
  end.

(** 1 if the call is a vote on proposal [i] for side [support] that the
    contract accepts in [st], else 0. *)
Definition accepted_vote (i : uint256) (support : bool) (c : Call) (env : Env)
    (st : Storage) : N :=
  match vote_of c with
  | Some (j, s) =>
      if (j =? i) && Bool.eqb s support
         && succeeded (call (Governance.vote j s) env st).2
      then 1 else 0
  | None => 0
  end.

(** The number of votes of a trace on proposal [i] for side [support] that
    the contract accepts. *)
Fixpoint accepted (i : uint256) (support : bool) (trace : list (Env * Call))
    (st : Storage) : N :=
  match trace with
  | [] => 0
  | (env, c) :: rest =>
      accepted_vote i support c env st + accepted i support rest (execute c env st)
  end.

(** Every call of the trace is made after time [t]. *)
Definition later_than (t : uint256) (trace : list (Env * Call)) : Prop :=
  Forall (λ step, t < block_timestamp step.1) trace.

(** ** Evaluating contract code *)

Lemma slot_insert_eq m c i p : slot (mkStorage (<[i := p]> m) c) i = p.
Proof. unfold slot; simpl. by rewrite lookup_insert_eq. Qed.

Lemma slot_insert_ne m c i j p :
  i ≠ j → slot (mkStorage (<[i := p]> m) c) j = slot (mkStorage m c) j.
Proof. intros Hne. unfold slot; simpl. by rewrite lookup_insert_ne. Qed.

Lemma slot_eta st i : slot (mkStorage (proposals st) (proposalCount st)) i = slot st i.
Proof. reflexivity. Qed.

(** Unfold the monadic code down to the storage operations. *)
Ltac step :=
  cbn [store logs proposals proposalCount msg_sender block_timestamp fst snd
       negb Proposal.id Proposal.title Proposal.description Proposal.proposer
       Proposal.endDate Proposal.votesFor Proposal.votesAgainst
       Proposal.totalVoters Proposal.isExecuted Proposal.hasVoted
       Proposal.set_id Proposal.set_title Proposal.set_description
       Proposal.set_proposer Proposal.set_endDate Proposal.set_votesFor
       Proposal.set_votesAgainst Proposal.set_totalVoters
       Proposal.set_isExecuted Proposal.set_hasVoted];
  repeat rewrite ?slot_insert_eq, ?insert_insert_eq, ?slot_eta.

Ltac exec :=
  unfold call, execute, Governance.createProposal, Governance.vote,
    Governance.voteFor, Governance.voteAgainst, Governance.getProposal,
    Governance.getProposalStatus, Governance.hasVoted,
    Governance.getTotalProposals, Governance.validProposal,
    Governance.votingPeriod, increment;
  unfold mbind, M_bind, mret, M_ret, require, sender, timestamp, checked_add,
    load_proposalCount, store_proposalCount, load, assign, emit;
  step.

(** Branch on the next condition the code tests. *)
Ltac known :=
  repeat match goal with
  | H : ?b = true |- context [if ?b then _ else _] => rewrite H; step
  | H : ?b = false |- context [if ?b then _ else _] => rewrite H; step
  end.

Ltac branch :=
  match goal with
  | |- _ = (if ?b then _ else _) => destruct b eqn:?; step; known
  end.

(** *** Closed forms of the two state-changing functions *)

Lemma createProposal_call title description env st :
  call (Governance.createProposal title description) env st =
  if nonempty title then
    if nonempty description then
      if proposalCount st + 1 <=? MAX_UINT256 then
        if block_timestamp env + Governance.VOTING_PERIOD <=? MAX_UINT256 then
          let i := proposalCount st in
          (mkStorage (<[i := created i title description env (slot st i)]>
                        (proposals st)) (i + 1),
           Success i [ProposalCreated i title (msg_sender env)
                        (block_timestamp env + Governance.VOTING_PERIOD)])
        else (st, Failure OVERFLOW)
      else (st, Failure OVERFLOW)
    else (st, Failure (Revert "Description cannot be empty"))
  else (st, Failure (Revert "Title cannot be empty")).
Proof.
  destruct st as [m c], env as [who now]. unfold nonempty. exec.
  repeat branch; reflexivity.
Qed.

Lemma vote_call i support env st :
  call (Governance.vote i support) env st =
  let p := slot st i in
  if i <? proposalCount st then
    if block_timestamp env <=? Proposal.endDate p then
      if Proposal.voted p (msg_sender env) then (st, Failure DuplicateVoteError)
      else if Proposal.totalVoters p + 1 <=? MAX_UINT256 then
        if (if support then Proposal.votesFor p else Proposal.votesAgainst p)
             + 1 <=? MAX_UINT256 then
          let p' := voted_on (msg_sender env) support p in
          (mkStorage (<[i := p']> (proposals st)) (proposalCount st),
           Success () [VoteCast i (msg_sender env) support
                         (Proposal.votesFor p') (Proposal.votesAgainst p')])
        else (st, Failure OVERFLOW)
      else (st, Failure OVERFLOW)
    else (st, Failure VotingClosedError)
  else (st, Failure NotFoundError).
Proof.
  destruct st as [m c], env as [who now], support. all: exec.
  all: repeat branch; reflexivity.
Qed.

(** *** Closed forms of the views *)

Lemma getProposalStatus_call i env st :
  call (Governance.getProposalStatus i) env st =
  if i <? proposalCount st
  then (st, Success (status (block_timestamp env) (slot st i)) [])
  else (st, Failure NotFoundError).
Proof.
  destruct st as [m c], env as [who now]. unfold status. exec.
  destruct (i <? c); step; [|reflexivity].
  destruct (Proposal.isExecuted _); step.
  - destruct (Proposal.votesAgainst _ <? _); reflexivity.
  - destruct (_ <? now); step; [|reflexivity].
    destruct (_ && _); reflexivity.
Qed.

Lemma getProposal_call i env st :
  call (Governance.getProposal i) env st =
  if i <? proposalCount st
  then let p := slot st i in
       (st, Success (Proposal.id p, Proposal.title p, Proposal.description p,
                     Proposal.proposer p, Proposal.endDate p,
                     Proposal.votesFor p, Proposal.votesAgainst p,
                     Proposal.totalVoters p, Proposal.isExecuted p) [])
  else (st, Failure NotFoundError).
Proof. destruct st as [m c], env as [who now]. exec. branch; reflexivity. Qed.

Lemma hasVoted_call i voter env st :
  call (Governance.hasVoted i voter) env st =
  if i <? proposalCount st
  then (st, Success (Proposal.voted (slot st i) voter) [])
  else (st, Failure NotFoundError).
Proof. destruct st as [m c], env as [who now]. exec. branch; reflexivity. Qed.

Lemma getTotalProposals_call env st :
  call Governance.getTotalProposals env st = (st, Success (proposalCount st) []).
Proof. destruct st as [m c]. reflexivity. Qed.

(** A failed call changes nothing. *)
Lemma call_failure {A} (f : M A) env st st' e :
  call f env st = (st', Failure e) → st' = st.
Proof. unfold call. destruct (f _ _); congruence. Qed.

(** ** The invariant of the deployed contract *)

(** A map whose keys all lie below [n] has at most [n] entries. *)
Lemma bounded_keys_size {V} (n : N) :
  ∀ m : gmap N V, (∀ k, is_Some (m !! k) → k < n) → N.of_nat (size m) ≤ n.
Proof.
  induction n as [|n IH] using N.peano_ind; intros m Hm.
  - assert (m = ∅) as ->.
    { apply map_empty. intros k. apply eq_None_not_Some. intros Hk.
      apply Hm in Hk. lia. }
    rewrite map_size_empty. lia.
  - assert (N.of_nat (size (delete n m)) ≤ n) as Hdel.
    { apply IH. intros k Hk. apply lookup_delete_is_Some in Hk as [Hne Hk].
      apply Hm in Hk. lia. }
    rewrite map_size_delete in Hdel. destruct (m !! n); simpl in Hdel; lia.
Qed.

Lemma proposal_inv_zero : proposal_inv Proposal.zero.
Proof. split; try done. Qed.

Lemma inv_constructor : inv Governance.constructor.
Proof.
  split; simpl.
  - intros i. rewrite lookup_empty. split; [by intros [? ?] | lia].
  - intros i p. by rewrite lookup_empty.
  - intros i p. by rewrite lookup_empty.
Qed.

Lemma inv_slot st i : inv st → proposal_inv (slot st i).
Proof.
  intros Hinv. unfold slot. destruct (proposals st !! i) eqn:Hi; simpl.
  - eapply inv_proposal; eauto.
  - apply proposal_inv_zero.
Qed.

Lemma inv_fresh st i : inv st → proposalCount st ≤ i → slot st i = Proposal.zero.
Proof.
  intros Hinv Hi. unfold slot.
  destruct (proposals st !! i) eqn:E; [|done].
  assert (i < proposalCount st) by (apply (inv_dense st Hinv); eauto). lia.
Qed.

Lemma inv_existing st i :
  inv st → i < proposalCount st → proposals st !! i = Some (slot st i).
Proof.
  intros Hinv Hi. apply (inv_dense st Hinv) in Hi as [p Hp].
  unfold slot. by rewrite Hp.
Qed.

(** With the invariant, reading [hasVoted[a]] as false means that [a] is not
    a key of the mapping. *)
Lemma not_voted_None p a :
  proposal_inv p → Proposal.voted p a = false → Proposal.hasVoted p !! a = None.
Proof.
  intros Hp. unfold Proposal.voted.
  destruct (Proposal.hasVoted p !! a) as [b|] eqn:E; [|done].
  apply (inv_voters p Hp) in E as [-> _]. done.
Qed.

Lemma MAX_ADDRESS_lt : MAX_ADDRESS + 1 < MAX_UINT256.
Proof. reflexivity. Qed.

(** The number of voters stays below the range of [address]. *)
Lemma voters_bounded p : proposal_inv p → Proposal.totalVoters p ≤ MAX_ADDRESS + 1.
Proof.
  intros Hp. rewrite (inv_distinct p Hp). apply bounded_keys_size.
  intros k [b Hk]. apply (inv_voters p Hp) in Hk. lia.
Qed.

Lemma new_voter_bounded p a :
  proposal_inv p → a ≤ MAX_ADDRESS → Proposal.hasVoted p !! a = None →
  Proposal.totalVoters p + 1 ≤ MAX_ADDRESS + 1.
Proof.
  intros Hp Ha Hnone.
  assert (N.of_nat (size (<[a := true]> (Proposal.hasVoted p))) ≤ MAX_ADDRESS + 1).
  { apply bounded_keys_size. intros k [b Hk].
    destruct (decide (a = k)) as [<-|Hne]; [lia|].
    rewrite lookup_insert_ne in Hk by done.
    apply (inv_voters p Hp) in Hk. lia. }
  rewrite map_size_insert_None in H by done.
  rewrite (inv_distinct p Hp). lia.
Qed.

Lemma inv_created st title description env :
  inv st →
  block_timestamp env + Governance.VOTING_PERIOD ≤ MAX_UINT256 →
  inv (mkStorage
         (<[proposalCount st :=
              created (proposalCount st) title description env
                (slot st (proposalCount st))]> (proposals st))
         (proposalCount st + 1)).
Proof.
  intros Hinv Hnow. rewrite (inv_fresh st _ Hinv) by lia.
  split; simpl.
  - intros i. rewrite lookup_insert_is_Some, (inv_dense st Hinv). lia.
  - intros i p. rewrite lookup_insert_Some.
    intros [[<- <-]|[_ Hp]]; [done|]. by apply (inv_id st Hinv).
  - intros i p. rewrite lookup_insert_Some.
    intros [[<- <-]|[_ Hp]]; [|by apply (inv_proposal st Hinv i)].
    split; simpl; try done.
Qed.

Lemma proposal_inv_voted p who support :
  proposal_inv p → who ≤ MAX_ADDRESS → Proposal.voted p who = false →
  proposal_inv (voted_on who support p).
Proof.
  intros Hp Hwho Hnot. pose proof (not_voted_None p who Hp Hnot) as Hnone.
  destruct Hp as [Htally Hexec Hvoters Hsize Hend].
  split; simpl; try done.
  - destruct support; lia.
  - intros a b. rewrite lookup_insert_Some.
    intros [[<- <-]|[_ Hab]]; [done|]. by apply Hvoters.
  - rewrite map_size_insert_None by done. lia.
Qed.

Lemma inv_voted st i who support :
  inv st → i < proposalCount st → who ≤ MAX_ADDRESS →
  Proposal.voted (slot st i) who = false →
  inv (mkStorage (<[i := voted_on who support (slot st i)]> (proposals st))
                 (proposalCount st)).
Proof.
  intros Hinv Hi Hwho Hnot.
  pose proof (inv_existing st i Hinv Hi) as Hp.
  split; simpl.
  - intros j. rewrite lookup_insert_is_Some, <-(inv_dense st Hinv).
    split; [intros [<-|[_ ?]]; eauto|].
    intros Hj. destruct (decide (i = j)); auto.
  - intros j p. rewrite lookup_insert_Some.
    intros [[<- <-]|[_ Hj]]; [|by apply (inv_id st Hinv)].
    simpl. by apply (inv_id st Hinv).
  - intros j p. rewrite lookup_insert_Some.
    intros [[<- <-]|[_ Hj]]; [|by apply (inv_proposal st Hinv j)].
    apply proposal_inv_voted; auto. by apply inv_slot.
Qed.

Lemma inv_vote st i support env :
  inv st → valid_env env → inv (call (Governance.vote i support) env st).1.
Proof.
  intros Hinv [Hwho _]. rewrite vote_call. cbv zeta.
  destruct (i <? _) eqn:Hi; [|exact Hinv].
  destruct (_ <=? Proposal.endDate _); [|exact Hinv].
  destruct (Proposal.voted _ _) eqn:Hv; [exact Hinv|].
  destruct (_ <=? _); [|exact Hinv]. destruct (_ <=? _); [|exact Hinv].
  apply inv_voted; auto. by apply N.ltb_lt.
Qed.

Lemma inv_execute c env st : inv st → valid_env env → inv (execute c env st).
Proof.
  intros Hinv Henv. destruct c; unfold execute.
  - rewrite createProposal_call.
    destruct (nonempty title); [|exact Hinv].
    destruct (nonempty description); [|exact Hinv].
    destruct (_ <=? _); [|exact Hinv].
    destruct (_ <=? _) eqn:Hnow; [|exact Hinv].
    apply inv_created; [exact Hinv|]. apply N.leb_le. exact Hnow.
  - exact (inv_vote _ _ _ _ Hinv Henv).
  - exact (inv_vote _ _ _ _ Hinv Henv).
  - exact (inv_vote _ _ _ _ Hinv Henv).
  - rewrite getProposal_call. destruct (_ <? _); exact Hinv.
  - rewrite getProposalStatus_call. destruct (_ <? _); exact Hinv.
  - rewrite hasVoted_call. destruct (_ <? _); exact Hinv.
  - rewrite getTotalProposals_call. exact Hinv.
Qed.

Lemma reachable_inv st : reachable st → inv st.
Proof.
  induction 1 as [|st c env _ IH Henv].
  - apply inv_constructor.
  - by apply inv_execute.
Qed.

Lemma reachable_run trace : ∀ st,
  reachable st → valid_trace trace → reachable (run trace st).
Proof.
  induction trace as [|[env c] rest IH]; intros st Hst Hvalid; simpl; [done|].
  inversion Hvalid; subst. apply IH; [|done]. by apply reachable_call.
Qed.

Lemma valid_envb_spec env : valid_envb env = true → valid_env env.
Proof.
  unfold valid_envb, valid_env. rewrite andb_true_iff, !N.leb_le. tauto.
Qed.

Lemma valid_trace_check trace :
  forallb (λ step, valid_envb step.1) trace = true → valid_trace trace.
Proof.
  unfold valid_trace. rewrite forallb_forall, Forall_forall.
  intros H step Hin. apply valid_envb_spec, H. by apply list_elem_of_In.
Qed.

Lemma reachable_trace trace :
  forallb (λ step, valid_envb step.1) trace = true →
  reachable (run trace Governance.constructor).
Proof.
  intros H. apply reachable_run; [constructor | by apply valid_trace_check].
Qed.

Lemma reachable_registry1 : reachable registry1.
Proof. by apply reachable_trace. Qed.
Lemma reachable_registry2 : reachable registry2.
Proof. by apply reachable_trace. Qed.
Lemma reachable_registry3 : reachable registry3.
Proof. by apply reachable_trace. Qed.
Lemma reachable_ballot n :
  forallb (λ step, valid_envb step.1) (ballot n) = true →
  reachable (run (ballot n) Governance.constructor).
Proof. apply reachable_trace. Qed.

(** ** The tally invariant *)

(** C1: in every state reachable by calls of the contract, every proposal
    slot satisfies [votesFor + votesAgainst = totalVoters]; a successful
    [createProposal] stores the three counters as zero, and a successful
    [vote] adds one to [totalVoters] and to exactly one of [votesFor] and
    [votesAgainst]. *)
Theorem tally_invariant st (Hst : reachable st) :
  (∀ i, Proposal.votesFor (slot st i) + Proposal.votesAgainst (slot st i)
        = Proposal.totalVoters (slot st i))
  ∧ (∀ title description env st' i evs,
       call (Governance.createProposal title description) env st
       = (st', Success i evs) →
       Proposal.votesFor (slot st' i) = 0
       ∧ Proposal.votesAgainst (slot st' i) = 0
       ∧ Proposal.totalVoters (slot st' i) = 0)
  ∧ (∀ i support env st' evs,
       call (Governance.vote i support) env st = (st', Success () evs) →
       Proposal.totalVoters (slot st' i) = Proposal.totalVoters (slot st i) + 1
       ∧ Proposal.votesFor (slot st' i)
         = Proposal.votesFor (slot st i) + (if support then 1 else 0)
       ∧ Proposal.votesAgainst (slot st' i)
         = Proposal.votesAgainst (slot st i) + (if support then 0 else 1)).
Proof.
  pose proof (reachable_inv st Hst) as Hinv. split; [|split].
  - intros i. apply inv_tally. by apply inv_slot.
  - intros title description env st' i evs. rewrite createProposal_call.
    repeat (destruct (_ : bool); [|discriminate 1]). cbv zeta.
    intros [= <- <- _]. by rewrite slot_insert_eq.
  - intros i support env st' evs. rewrite vote_call. cbv zeta.
    destruct (i <? _); [|discriminate 1].
    destruct (_ <=? Proposal.endDate _); [|discriminate 1].
    destruct (Proposal.voted _ _); [discriminate 1|].
    repeat (destruct (_ <=? _); [|discriminate 1]).
    intros [= <- _]. rewrite slot_insert_eq. destruct support; simpl; lia.
Qed.

Lemma tally_invariant_witness :
  Proposal.votesFor (slot registry2 0) + Proposal.votesAgainst (slot registry2 0)
  = Proposal.totalVoters (slot registry2 0)
  ∧ Proposal.totalVoters (slot registry2 0) = 2.
Proof.
  split; [|reflexivity].
  exact (proj1 (tally_invariant registry2 reachable_registry2) 0).
Defined.

(** ** Proposal status *)

Lemma status_cases now p :
  (Proposal.isExecuted p = true →
     (Proposal.votesAgainst p < Proposal.votesFor p → status now p = "Passed")
     ∧ (Proposal.votesFor p ≤ Proposal.votesAgainst p → status now p = "Failed"))
  ∧ (Proposal.isExecuted p = false → Proposal.endDate p < now →
     (Proposal.votesAgainst p < Proposal.votesFor p ∧ 1000 ≤ Proposal.votesFor p →
        status now p = "Passed")
     ∧ (¬ (Proposal.votesAgainst p < Proposal.votesFor p
           ∧ 1000 ≤ Proposal.votesFor p) → status now p = "Failed"))
  ∧ (Proposal.isExecuted p = false → now ≤ Proposal.endDate p →
     status now p = "Active").
Proof.
  unfold status, Governance.MIN_VOTES_TO_PASS.
  destruct (Proposal.isExecuted p); (split; [|split]); try discriminate 1.
  - intros _.
    destruct (N.ltb_spec (Proposal.votesAgainst p) (Proposal.votesFor p));
      split; intros; try reflexivity; lia.
  - intros _ Hlate.
    destruct (N.ltb_spec (Proposal.endDate p) now); [|lia].
    destruct (N.ltb_spec (Proposal.votesAgainst p) (Proposal.votesFor p));
      destruct (N.leb_spec 1000 (Proposal.votesFor p)); simpl;
      split; intros; try reflexivity; try lia; tauto.
  - intros _ Hopen.
    destruct (N.ltb_spec (Proposal.endDate p) now); [lia|reflexivity].
Qed.

(** C2: for an existing proposal, [getProposalStatus] called at time [now]
    returns "Passed" or "Failed" by simple majority when [isExecuted] is set;
    otherwise, once [now] is past [endDate], "Passed" exactly when
    [votesFor > votesAgainst] and [votesFor >= 1000], else "Failed";
    otherwise "Active".  With 999 votes for and 1 against past the deadline
    the answer is "Failed". *)
Theorem getProposalStatus_spec st i env (Hi : i < proposalCount st) :
  let p := slot st i in
  let now := block_timestamp env in
  ∃ s, call (Governance.getProposalStatus i) env st = (st, Success s [])
  ∧ (Proposal.isExecuted p = true →
       (Proposal.votesAgainst p < Proposal.votesFor p → s = "Passed")
       ∧ (Proposal.votesFor p ≤ Proposal.votesAgainst p → s = "Failed"))
  ∧ (Proposal.isExecuted p = false → Proposal.endDate p < now →
       (Proposal.votesAgainst p < Proposal.votesFor p
        ∧ 1000 ≤ Proposal.votesFor p → s = "Passed")
       ∧ (¬ (Proposal.votesAgainst p < Proposal.votesFor p
             ∧ 1000 ≤ Proposal.votesFor p) → s = "Failed"))
  ∧ (Proposal.isExecuted p = false → now ≤ Proposal.endDate p → s = "Active")
  ∧ (Proposal.isExecuted p = false → Proposal.endDate p < now →
       Proposal.votesFor p = 999 → Proposal.votesAgainst p = 1 → s = "Failed").
Proof.
  intros p now. exists (status now p).
  destruct (status_cases now p) as (Hexec & Hlate & Hopen).
  split; [|split; [|split; [|split]]]; auto.
  - rewrite getProposalStatus_call.
    apply N.ltb_lt in Hi. rewrite Hi. reflexivity.
  - intros Hne Hpast Hfor Hagainst. apply Hlate; auto. lia.
Qed.

(** The two quorum scenarios of the specification: 1000 votes for and one
    against pass, 999 votes for and one against fail. *)
Example quorum_met :
  (call (Governance.getProposalStatus 0) (mkEnv alice (t0 + 15 * day))
     (run (ballot 1000) Governance.constructor)).2
  = Success "Passed" [].
Proof. vm_compute. reflexivity. Qed.

Example quorum_missed :
  (call (Governance.getProposalStatus 0) (mkEnv alice (t0 + 15 * day))
     (run (ballot 999) Governance.constructor)).2
  = Success "Failed" [].
Proof. vm_compute. reflexivity. Qed.

Lemma getProposalStatus_spec_witness :
  0 < proposalCount registry2
  ∧ ∃ s, call (Governance.getProposalStatus 0) (mkEnv alice (t0 + 15 * day))
           registry2 = (registry2, Success s [])
         ∧ s = "Failed".
Proof.
  split; [reflexivity|].
  destruct (getProposalStatus_spec registry2 0 (mkEnv alice (t0 + 15 * day)))
    as (s & Hcall & _ & Hlate & _).
  - reflexivity.
  - exists s. split; [exact Hcall|].
    apply Hlate; [reflexivity | reflexivity |].
    intros [Hmajority _]. vm_compute in Hmajority. discriminate.
Defined.

(** ** Rejected votes *)

(** In a reachable state only existing proposals have voters. *)
Lemma voted_existing st i who :
  inv st → Proposal.voted (slot st i) who = true → i < proposalCount st.
Proof.
  intros Hinv Hvoted. destruct (N.lt_ge_cases i (proposalCount st)); [done|].
  rewrite (inv_fresh st i Hinv) in Hvoted by done. discriminate.
Qed.

(** C3, as stated, fails: a repeated vote after the deadline is rejected by
    the [votingPeriod] modifier, which runs before the duplicate check. *)
Lemma duplicate_vote_counterexample :
  ¬ (∀ st i support env,
       reachable st →
       Proposal.voted (slot st i) (msg_sender env) = true →
       call (Governance.vote i support) env st = (st, Failure DuplicateVoteError)).
Proof.
  intros H.
  specialize (H registry2 0 true (mkEnv alice (t0 + 15 * day))
                reachable_registry2 eq_refl).
  vm_compute in H. discriminate.
Qed.

(** C3 (amended): a vote by an identity already recorded in [hasVoted] of a
    proposal fails, whatever [support] is, and leaves the storage unchanged;
    the error is [DuplicateVoteError] while [now <= endDate] and
    [VotingClosedError] once [now > endDate]. *)
Theorem duplicate_vote_rejected st i support env
    (Hst : reachable st)
    (Hvoted : Proposal.voted (slot st i) (msg_sender env) = true) :
  call (Governance.vote i support) env st
  = (st, Failure (if block_timestamp env <=? Proposal.endDate (slot st i)
                  then DuplicateVoteError else VotingClosedError))
  ∧ (block_timestamp env ≤ Proposal.endDate (slot st i) →
     call (Governance.vote i support) env st = (st, Failure DuplicateVoteError))
  ∧ (Proposal.endDate (slot st i) < block_timestamp env →
     call (Governance.vote i support) env st = (st, Failure VotingClosedError)).
Proof.
  pose proof (voted_existing st i _ (reachable_inv st Hst) Hvoted) as Hi.
  apply N.ltb_lt in Hi.
  assert (call (Governance.vote i support) env st
          = (st, Failure (if block_timestamp env <=? Proposal.endDate (slot st i)
                          then DuplicateVoteError else VotingClosedError)))
    as Hcall.
  { rewrite vote_call. cbv zeta. rewrite Hi, Hvoted.
    by destruct (_ <=? _). }
  split; [exact Hcall|]. rewrite Hcall. split; intros Hnow.
  - apply N.leb_le in Hnow. by rewrite Hnow.
  - apply N.leb_gt in Hnow. by rewrite Hnow.
Qed.

Lemma duplicate_vote_rejected_witness :
  call (Governance.vote 0 false) (mkEnv alice (t0 + day)) registry2
  = (registry2, Failure DuplicateVoteError).
Proof.
  refine (proj1 (proj2 (duplicate_vote_rejected registry2 0 false
                          (mkEnv alice (t0 + day)) reachable_registry2 eq_refl)) _).
  vm_compute. discriminate.
Defined.

(** C4: for an existing proposal, a vote with [now > endDate] fails with
    [VotingClosedError] and leaves the storage unchanged. *)
Theorem vote_after_deadline st i support env
    (Hi : i < proposalCount st)
    (Hlate : Proposal.endDate (slot st i) < block_timestamp env) :
  call (Governance.vote i support) env st = (st, Failure VotingClosedError)
  ∧ slot (call (Governance.vote i support) env st).1 i = slot st i.
Proof.
  assert (call (Governance.vote i support) env st
          = (st, Failure VotingClosedError)) as Hcall.
  { rewrite vote_call. cbv zeta.
    apply N.ltb_lt in Hi. apply N.leb_gt in Hlate. by rewrite Hi, Hlate. }
  split; [exact Hcall|]. by rewrite Hcall.
Qed.

Lemma vote_after_deadline_witness :
  call (Governance.vote 0 true) (mkEnv bob (t0 + 14 * day + 1)) registry1
  = (registry1, Failure VotingClosedError).
Proof.
  refine (proj1 (vote_after_deadline registry1 0 true
                   (mkEnv bob (t0 + 14 * day + 1)) _ _)); reflexivity.
Defined.

(** ** Creating proposals *)

Lemma nonempty_spec s : nonempty s = true ↔ s ≠ "".
Proof.
  unfold nonempty. destruct s; simpl.
  - split; [discriminate|congruence].
  - split; [discriminate|]. intros _. apply N.ltb_lt. lia.
Qed.

(** C5: [createProposal] with an empty title or an empty description fails
    with a [ValidationError]; the storage after the call is the storage
    before it, so no proposal is created and [getTotalProposals] answers as
    before. *)
Theorem createProposal_empty st title description env
    (Hempty : title = "" ∨ description = "") :
  ∃ e, call (Governance.createProposal title description) env st
       = (st, Failure e)
  ∧ ValidationError e
  ∧ (∀ env',
       call Governance.getTotalProposals env'
         (call (Governance.createProposal title description) env st).1
       = call Governance.getTotalProposals env' st)
  ∧ proposals (call (Governance.createProposal title description) env st).1
    = proposals st.
Proof.
  assert (∃ e, call (Governance.createProposal title description) env st
               = (st, Failure e) ∧ ValidationError e) as (e & Hcall & He).
  { rewrite createProposal_call. unfold ValidationError.
    destruct (nonempty title) eqn:Ht.
    - destruct (nonempty description) eqn:Hd; [|eauto].
      apply nonempty_spec in Ht, Hd. tauto.
    - eauto. }
  exists e. rewrite Hcall. auto.
Qed.

Lemma createProposal_empty_witness :
  call (Governance.createProposal "" "x") (mkEnv alice t0) registry1
  = (registry1, Failure (Revert "Title cannot be empty"))
  ∧ call (Governance.createProposal "x" "") (mkEnv alice t0) registry1
    = (registry1, Failure (Revert "Description cannot be empty")).
Proof.
  split.
  - destruct (createProposal_empty registry1 "" "x" (mkEnv alice t0))
      as (e & Hcall & _); [by left|].
    rewrite Hcall. vm_compute in Hcall. congruence.
  - destruct (createProposal_empty registry1 "x" "" (mkEnv alice t0))
      as (e & Hcall & _); [by right|].
    rewrite Hcall. vm_compute in Hcall. congruence.
Defined.

(** C6: in a reachable state, with a non-empty title and description, a
    successful [createProposal] returns the current proposal count as the new
    id, raises the count by one, and stores a proposal with zero counters,
    [endDate = now + 14 days], [isExecuted = false] and no voters, whose
    status at [now] is "Active"; the call does succeed unless the count or
    the deadline would leave the [uint256] range. *)
Theorem createProposal_success st title description env
    (Hst : reachable st) (Htitle : title ≠ "") (Hdescription : description ≠ "") :
  (∀ st' i evs,
     call (Governance.createProposal title description) env st
     = (st', Success i evs) →
     i = proposalCount st
     ∧ proposalCount st' = proposalCount st + 1
     ∧ call Governance.getTotalProposals env st'
       = (st', Success (proposalCount st + 1) [])
     ∧ proposals st' !! i
       = Some (Proposal.mk i title description (msg_sender env)
                 (block_timestamp env + 14 * 86400) 0 0 0 false ∅)
     ∧ (∀ j, j ≠ i → proposals st' !! j = proposals st !! j)
     ∧ (∀ voter, call (Governance.hasVoted i voter) env st'
                 = (st', Success false []))
     ∧ call (Governance.getProposalStatus i) env st'
       = (st', Success "Active" []))
  ∧ (proposalCount st < MAX_UINT256 →
     block_timestamp env + 14 * 86400 ≤ MAX_UINT256 →
     ∃ st' evs, call (Governance.createProposal title description) env st
                = (st', Success (proposalCount st) evs)).
Proof.
  pose proof (reachable_inv st Hst) as Hinv.
  apply nonempty_spec in Htitle, Hdescription.
  rewrite createProposal_call, Htitle, Hdescription. cbv zeta.
  change Governance.VOTING_PERIOD with (14 * 86400).
  split.
  - intros st' i evs.
    destruct (_ <=? _); [|discriminate 1].
    destruct (_ <=? _); [|discriminate 1].
    intros [= <- <- _].
    assert ((proposalCount st <? proposalCount st + 1) = true) as Hlt
      by (apply N.ltb_lt; lia).
    unfold created, Governance.VOTING_PERIOD.
    rewrite (inv_fresh st _ Hinv) by lia. cbn [proposals Proposal.hasVoted].
    split_and!; try reflexivity.
    + by rewrite lookup_insert_eq.
    + intros j Hj. by rewrite lookup_insert_ne.
    + intros voter. rewrite hasVoted_call. cbn [proposalCount].
      rewrite Hlt, slot_insert_eq. reflexivity.
    + rewrite getProposalStatus_call. cbn [proposalCount].
      rewrite Hlt, slot_insert_eq. unfold status; cbn [block_timestamp
        Proposal.isExecuted Proposal.endDate].
      destruct (N.ltb_spec (block_timestamp env + 14 * 86400)
                  (block_timestamp env)); [lia|reflexivity].
  - intros Hcount Hnow.
    apply N.leb_le in Hnow. rewrite Hnow.
    assert ((proposalCount st + 1 <=? MAX_UINT256) = true) as ->
      by (apply N.leb_le; lia).
    eauto.
Qed.

Lemma createProposal_success_witness :
  ∃ st', call (Governance.createProposal "Lower fees" "Reduce fees to 0.1%")
           (mkEnv alice t0) Governance.constructor
         = (st', Success 0 [ProposalCreated 0 "Lower fees" alice (t0 + 14 * day)])
       ∧ call (Governance.getProposalStatus 0) (mkEnv alice t0) st'
         = (st', Success "Active" []).
Proof.
  exists registry1.
  assert (call (Governance.createProposal "Lower fees" "Reduce fees to 0.1%")
            (mkEnv alice t0) Governance.constructor
          = (registry1,
             Success 0 [ProposalCreated 0 "Lower fees" alice (t0 + 14 * day)]))
    as Hcall by (vm_compute; reflexivity).
  split; [exact Hcall|].
  destruct (createProposal_success Governance.constructor "Lower fees"
              "Reduce fees to 0.1%" (mkEnv alice t0) reachable_constructor)
    as [Hok _]; [discriminate | discriminate |].
  destruct (Hok registry1 0 _ Hcall) as (_ & _ & _ & _ & _ & _ & Hactive).
  exact Hactive.
Defined.

(** ** Proposal ids *)

(** C7: in a reachable state the stored proposals are those with an id below
    [proposalCount].  For [proposalId >= proposalCount], [vote],
    [getProposal], [getProposalStatus] and [hasVoted] fail with
    [NotFoundError]; for [proposalId < proposalCount] the proposal with that
    id is found: the views answer from it, and [vote] does not fail with
    [NotFoundError]. *)
Theorem valid_ids st i env (Hst : reachable st) :
  (proposalCount st ≤ i →
     proposals st !! i = None
     ∧ (∀ support, call (Governance.vote i support) env st
                   = (st, Failure NotFoundError))
     ∧ call (Governance.getProposal i) env st = (st, Failure NotFoundError)
     ∧ call (Governance.getProposalStatus i) env st = (st, Failure NotFoundError)
     ∧ (∀ voter, call (Governance.hasVoted i voter) env st
                 = (st, Failure NotFoundError)))
  ∧ (i < proposalCount st →
     ∃ p, proposals st !! i = Some p
     ∧ Proposal.id p = i
     ∧ (∀ support, (call (Governance.vote i support) env st).2
                   ≠ Failure NotFoundError)
     ∧ call (Governance.getProposal i) env st
       = (st, Success (Proposal.id p, Proposal.title p, Proposal.description p,
                       Proposal.proposer p, Proposal.endDate p,
                       Proposal.votesFor p, Proposal.votesAgainst p,
                       Proposal.totalVoters p, Proposal.isExecuted p) [])
     ∧ call (Governance.getProposalStatus i) env st
       = (st, Success (status (block_timestamp env) p) [])
     ∧ (∀ voter, call (Governance.hasVoted i voter) env st
                 = (st, Success (Proposal.voted p voter) []))).
Proof.
  pose proof (reachable_inv st Hst) as Hinv. split; intros Hi.
  - assert ((i <? proposalCount st) = false) as Hlt by (apply N.ltb_ge; lia).
    rewrite getProposal_call, getProposalStatus_call, Hlt.
    split_and!; try reflexivity.
    + apply eq_None_not_Some. rewrite (inv_dense st Hinv). lia.
    + intros support. rewrite vote_call. cbv zeta. by rewrite Hlt.
    + intros voter. rewrite hasVoted_call. by rewrite Hlt.
  - pose proof (inv_existing st i Hinv Hi) as Hp.
    assert ((i <? proposalCount st) = true) as Hlt by (by apply N.ltb_lt).
    exists (slot st i).
    rewrite getProposal_call, getProposalStatus_call, Hlt.
    split_and!; try done.
    + by apply (inv_id st Hinv).
    + intros support. rewrite vote_call. cbv zeta. rewrite Hlt.
      destruct (_ <=? Proposal.endDate _); [|discriminate].
      destruct (Proposal.voted _ _); [discriminate|].
      destruct (_ <=? _); [|discriminate]. destruct (_ <=? _); discriminate.
    + intros voter. rewrite hasVoted_call. by rewrite Hlt.
Qed.

Lemma valid_ids_witness :
  proposalCount registry3 = 3
  ∧ call (Governance.getProposal 5) (mkEnv alice t0) registry3
    = (registry3, Failure NotFoundError).
Proof.
  split; [reflexivity|].
  destruct (proj1 (valid_ids registry3 5 (mkEnv alice t0) reachable_registry3))
    as (_ & _ & Hget & _).
  - vm_compute. discriminate.
  - exact Hget.
Defined.

(** ** Execution flag *)

(** C8: in every state reachable through the external functions
    ([createProposal], [vote], [voteFor], [voteAgainst] and the views),
    [isExecuted] is false in every proposal slot, so [getProposalStatus] never
    answers from its execution branch. *)
Theorem never_executed st (Hst : reachable st) :
  (∀ i, Proposal.isExecuted (slot st i) = false)
  ∧ (∀ i p, proposals st !! i = Some p → Proposal.isExecuted p = false)
  ∧ (∀ i env, i < proposalCount st →
       call (Governance.getProposalStatus i) env st
       = (st, Success
                (let p := slot st i in
                 if Proposal.endDate p <? block_timestamp env then
                   if (Proposal.votesAgainst p <? Proposal.votesFor p)
                      && (1000 <=? Proposal.votesFor p)
                   then "Passed" else "Failed"
                 else "Active") [])).
Proof.
  pose proof (reachable_inv st Hst) as Hinv.
  assert (∀ i, Proposal.isExecuted (slot st i) = false) as Hslot.
  { intros i. apply inv_not_executed. by apply inv_slot. }
  split_and!; [exact Hslot| |].
  - intros i p Hp. apply inv_not_executed. by apply (inv_proposal st Hinv i).
  - intros i env Hi. apply N.ltb_lt in Hi.
    rewrite getProposalStatus_call, Hi. unfold status. by rewrite Hslot.
Qed.

Lemma never_executed_witness :
  Proposal.isExecuted (slot registry2 0) = false
  ∧ Proposal.isExecuted (slot (run (ballot 1000) Governance.constructor) 0) = false.
Proof.
  split.
  - exact (proj1 (never_executed registry2 reachable_registry2) 0).
  - refine (proj1 (never_executed _ (reachable_ballot 1000 _)) 0).
    vm_compute. reflexivity.
Defined.

(** ** Wrappers *)

(** Read as internal calls, the wrappers are [vote] with [support] fixed:
    same sender, same time, same result.  This is the reading used for the
    transitions [VoteFor] and [VoteAgainst]. *)
Remark voteFor_voteAgainst_delegate i env :
  (∀ w, Governance.voteFor i env w = Governance.vote i true env w)
  ∧ (∀ w, Governance.voteAgainst i env w = Governance.vote i false env w)
  ∧ (∀ st, call (Governance.voteFor i) env st
           = call (Governance.vote i true) env st)
  ∧ (∀ st, call (Governance.voteAgainst i) env st
           = call (Governance.vote i false) env st)
  ∧ (∀ st, execute (VoteFor i) env st = execute (Vote i true) env st)
  ∧ (∀ st, execute (VoteAgainst i) env st = execute (Vote i false) env st).
Proof. split_and!; reflexivity. Qed.

(** ** The deadline instant *)

(** A vote that passes the three checks of [vote] cannot overflow a counter
    in a reachable state. *)
Lemma vote_accepted st i support env :
  inv st → msg_sender env ≤ MAX_ADDRESS →
  i < proposalCount st →
  block_timestamp env ≤ Proposal.endDate (slot st i) →
  Proposal.voted (slot st i) (msg_sender env) = false →
  call (Governance.vote i support) env st
  = (mkStorage (<[i := voted_on (msg_sender env) support (slot st i)]>
                  (proposals st)) (proposalCount st),
     Success ()
       [VoteCast i (msg_sender env) support
          (Proposal.votesFor (voted_on (msg_sender env) support (slot st i)))
          (Proposal.votesAgainst (voted_on (msg_sender env) support (slot st i)))]).
Proof.
  intros Hinv Hwho Hi Hnow Hnot.
  pose proof (inv_slot st i Hinv) as Hp.
  pose proof (new_voter_bounded _ _ Hp Hwho (not_voted_None _ _ Hp Hnot)) as Hb.
  pose proof MAX_ADDRESS_lt as Hmax.
  pose proof (inv_tally _ Hp) as Htally.
  rewrite vote_call. cbv zeta.
  apply N.ltb_lt in Hi. apply N.leb_le in Hnow. rewrite Hi, Hnow, Hnot.
  assert ((Proposal.totalVoters (slot st i) + 1 <=? MAX_UINT256) = true) as ->
    by (apply N.leb_le; lia).
  assert (((if support then Proposal.votesFor (slot st i)
            else Proposal.votesAgainst (slot st i)) + 1 <=? MAX_UINT256) = true)
    as -> by (apply N.leb_le; destruct support; lia).
  reflexivity.
Qed.

(** C10: at [now = endDate] of an existing proposal in a reachable state, a
    vote by an identity that has not voted succeeds and is counted, and
    [getProposalStatus] at that instant answers "Active", before the vote and
    after it. *)
Theorem deadline_instant st i support env
    (Hst : reachable st) (Hwho : msg_sender env ≤ MAX_ADDRESS)
    (Hi : i < proposalCount st)
    (Hnow : block_timestamp env = Proposal.endDate (slot st i))
    (Hnot : Proposal.voted (slot st i) (msg_sender env) = false) :
  ∃ st' evs,
    call (Governance.vote i support) env st = (st', Success () evs)
    ∧ Proposal.voted (slot st' i) (msg_sender env) = true
    ∧ Proposal.totalVoters (slot st' i) = Proposal.totalVoters (slot st i) + 1
    ∧ Proposal.votesFor (slot st' i)
      = Proposal.votesFor (slot st i) + (if support then 1 else 0)
    ∧ Proposal.votesAgainst (slot st' i)
      = Proposal.votesAgainst (slot st i) + (if support then 0 else 1)
    ∧ call (Governance.getProposalStatus i) env st = (st, Success "Active" [])
    ∧ call (Governance.getProposalStatus i) env st' = (st', Success "Active" []).
Proof.
  pose proof (reachable_inv st Hst) as Hinv.
  pose proof (inv_not_executed _ (inv_slot st i Hinv)) as Hexec.
  assert ((i <? proposalCount st) = true) as Hlt by (by apply N.ltb_lt).
  assert ((Proposal.endDate (slot st i) <? block_timestamp env) = false) as Hopen
    by (apply N.ltb_ge; lia).
  eexists _, _. split; [apply vote_accepted; auto; lia|].
  rewrite !getProposalStatus_call. cbn [proposalCount]. rewrite Hlt.
  rewrite slot_insert_eq. unfold status, Proposal.voted.
  cbn [voted_on Proposal.isExecuted Proposal.endDate Proposal.hasVoted
       Proposal.totalVoters Proposal.votesFor Proposal.votesAgainst].
  rewrite Hexec, Hopen, lookup_insert_eq.
  split_and!; try reflexivity; destruct support; lia.
Qed.

Lemma deadline_instant_witness :
  ∃ st' evs,
    call (Governance.vote 0 true) (mkEnv bob (t0 + 14 * day)) registry1
    = (st', Success () evs)
    ∧ call (Governance.getProposalStatus 0) (mkEnv bob (t0 + 14 * day)) registry1
      = (registry1, Success "Active" []).
Proof.
  destruct (deadline_instant registry1 0 true (mkEnv bob (t0 + 14 * day))
              reachable_registry1)
    as (st' & evs & Hvote & _ & _ & _ & _ & Hactive & _).
  - vm_compute. discriminate.
  - reflexivity.
  - reflexivity.
  - reflexivity.
  - exists st', evs. split; [exact Hvote | exact Hactive].
Defined.

(** ** One call at a time *)

Lemma vote_effect i support env st :
  effect env st (call (Governance.vote i support) env st).1.
Proof.
  rewrite vote_call. cbv zeta.
  destruct (i <? _) eqn:Hi; [|constructor].
  destruct (_ <=? Proposal.endDate _) eqn:Hnow; [|constructor].
  destruct (Proposal.voted _ _) eqn:Hv; [constructor|].
  destruct (Proposal.totalVoters _ + 1 <=? _); [|constructor].
  destruct (_ + 1 <=? _); [|constructor].
  apply N.ltb_lt in Hi. apply N.leb_le in Hnow.
  exact (effect_voted env st i support Hi Hnow Hv).
Qed.

Lemma execute_effect c env st : effect env st (execute c env st).
Proof.
  destruct c; unfold execute.
  - rewrite createProposal_call.
    destruct (nonempty title) eqn:Ht; [|constructor].
    destruct (nonempty description) eqn:Hd; [|constructor].
    destruct (proposalCount st + 1 <=? _) eqn:Hc; [|constructor].
    destruct (block_timestamp env + _ <=? _) eqn:Hnow; [|constructor].
    apply N.leb_le in Hc, Hnow.
    exact (effect_created env st title description Ht Hd Hc Hnow).
  - exact (vote_effect _ _ _ _).
  - exact (vote_effect _ _ _ _).
  - exact (vote_effect _ _ _ _).
  - rewrite getProposal_call. destruct (_ <? _); constructor.
  - rewrite getProposalStatus_call. destruct (_ <? _); constructor.
  - rewrite hasVoted_call. destruct (_ <? _); constructor.
  - rewrite getTotalProposals_call. constructor.
Qed.

Lemma slot_insert_other st j i p c :
  i ≠ j → slot (mkStorage (<[i := p]> (proposals st)) c) j = slot st j.
Proof. intros Hne. unfold slot; simpl. by rewrite lookup_insert_ne. Qed.

Lemma effect_count env st st' :
  effect env st st' → proposalCount st ≤ proposalCount st'.
Proof. destruct 1; simpl; lia. Qed.

(** What a call does to an existing proposal: nothing, or one vote. *)
Lemma effect_existing env st st' i :
  effect env st st' → i < proposalCount st →
  slot st' i = slot st i
  ∨ (block_timestamp env ≤ Proposal.endDate (slot st i)
     ∧ Proposal.voted (slot st i) (msg_sender env) = false
     ∧ ∃ support, slot st' i = voted_on (msg_sender env) support (slot st i)).
Proof.
  intros Heff Hi. destruct Heff as [|title description _ _ _ _|j support Hj Hnow Hv].
  - by left.
  - left. apply slot_insert_other. lia.
  - destruct (decide (j = i)) as [->|Hne].
    + right. split_and!; [done|done|]. exists support.
      unfold slot at 1; simpl. by rewrite lookup_insert_eq.
    + left. by apply slot_insert_other.
Qed.

Lemma later_than_cons t env c rest :
  later_than t ((env, c) :: rest) ↔ t < block_timestamp env ∧ later_than t rest.
Proof. unfold later_than. by rewrite Forall_cons. Qed.

(** ** Views *)

(** X1: the four views never write: whatever the storage, the id and the
    caller, [getProposal], [getProposalStatus], [hasVoted] and
    [getTotalProposals] return the storage they were given and emit no
    event, whether they answer or revert. *)
Theorem views_read_only st env i voter :
  (call (Governance.getProposal i) env st).1 = st
  ∧ (call (Governance.getProposalStatus i) env st).1 = st
  ∧ (call (Governance.hasVoted i voter) env st).1 = st
  ∧ (call Governance.getTotalProposals env st).1 = st
  ∧ events_of (call (Governance.getProposal i) env st).2 = []
  ∧ events_of (call (Governance.getProposalStatus i) env st).2 = []
  ∧ events_of (call (Governance.hasVoted i voter) env st).2 = []
  ∧ events_of (call Governance.getTotalProposals env st).2 = [].
Proof.
  rewrite getProposal_call, getProposalStatus_call, hasVoted_call,
    getTotalProposals_call.
  destruct (i <? proposalCount st); split_and!; reflexivity.
Qed.

(** ** Votes *)

(** The three checks of [vote], as one test. *)
Lemma vote_decided st i support env :
  inv st → msg_sender env ≤ MAX_ADDRESS →
  (call (Governance.vote i support) env st).1
  = if (i <? proposalCount st)
       && (block_timestamp env <=? Proposal.endDate (slot st i))
       && negb (Proposal.voted (slot st i) (msg_sender env))
    then mkStorage (<[i := voted_on (msg_sender env) support (slot st i)]>
                      (proposals st)) (proposalCount st)
    else st.
Proof.
  intros Hinv Hwho.
  destruct (i <? proposalCount st) eqn:Hi; cbn [andb].
  - destruct (block_timestamp env <=? Proposal.endDate (slot st i)) eqn:Hnow;
      cbn [andb].
    + destruct (Proposal.voted (slot st i) (msg_sender env)) eqn:Hv; cbn [negb].
      * rewrite vote_call. cbv zeta. by rewrite Hi, Hnow, Hv.
      * apply N.ltb_lt in Hi. apply N.leb_le in Hnow.
        by rewrite (vote_accepted st i support env Hinv Hwho Hi Hnow Hv).
    + rewrite vote_call. cbv zeta. by rewrite Hi, Hnow.
  - rewrite vote_call. cbv zeta. by rewrite Hi.
Qed.

(** X2: in a reachable state, for a sender that is an [address], the outcome
    of [vote] is decided by three checks in this order: unknown id, deadline
    passed, already voted; otherwise the vote is recorded.  In particular
    [vote] never aborts on an arithmetic overflow. *)
Theorem vote_outcome st i support env
    (Hst : reachable st) (Hwho : msg_sender env ≤ MAX_ADDRESS) :
  call (Governance.vote i support) env st
  = (if i <? proposalCount st then
       if block_timestamp env <=? Proposal.endDate (slot st i) then
         if Proposal.voted (slot st i) (msg_sender env)
         then (st, Failure DuplicateVoteError)
         else
           (mkStorage (<[i := voted_on (msg_sender env) support (slot st i)]>
                         (proposals st)) (proposalCount st),
            Success ()
              [VoteCast i (msg_sender env) support
                 (Proposal.votesFor
                    (voted_on (msg_sender env) support (slot st i)))
                 (Proposal.votesAgainst
                    (voted_on (msg_sender env) support (slot st i)))])
       else (st, Failure VotingClosedError)
     else (st, Failure NotFoundError))
  ∧ (call (Governance.vote i support) env st).2 ≠ Failure OVERFLOW.
Proof.
  pose proof (reachable_inv st Hst) as Hinv.
  destruct (i <? proposalCount st) eqn:Hi.
  - destruct (block_timestamp env <=? Proposal.endDate (slot st i)) eqn:Hnow.
    + destruct (Proposal.voted (slot st i) (msg_sender env)) eqn:Hv.
      * rewrite vote_call. cbv zeta. rewrite Hi, Hnow, Hv. by split.
      * apply N.ltb_lt in Hi. apply N.leb_le in Hnow.
        rewrite (vote_accepted st i support env Hinv Hwho Hi Hnow Hv). by split.
    + rewrite vote_call. cbv zeta. rewrite Hi, Hnow. by split.
  - rewrite vote_call. cbv zeta. rewrite Hi. by split.
Qed.

Lemma vote_outcome_witness :
  (call (Governance.vote 0 true) (mkEnv bob t0) registry1).2
  ≠ Failure OVERFLOW.
Proof.
  refine (proj2 (vote_outcome registry1 0 true (mkEnv bob t0)
                   reachable_registry1 _)).
  vm_compute. discriminate.
Defined.

Lemma vote_success i support env st st' evs :
  call (Governance.vote i support) env st = (st', Success () evs) →
  i < proposalCount st
  ∧ block_timestamp env ≤ Proposal.endDate (slot st i)
  ∧ Proposal.voted (slot st i) (msg_sender env) = false
  ∧ st' = mkStorage (<[i := voted_on (msg_sender env) support (slot st i)]>
                       (proposals st)) (proposalCount st)
  ∧ evs = [VoteCast i (msg_sender env) support
             (Proposal.votesFor (voted_on (msg_sender env) support (slot st i)))
             (Proposal.votesAgainst
                (voted_on (msg_sender env) support (slot st i)))].
Proof.
  rewrite vote_call. cbv zeta.
  destruct (i <? proposalCount st) eqn:Hi; [|discriminate 1].
  destruct (block_timestamp env <=? Proposal.endDate (slot st i)) eqn:Hnow;
    [|discriminate 1].
  destruct (Proposal.voted (slot st i) (msg_sender env)) eqn:Hv;
    [discriminate 1|].
  destruct (Proposal.totalVoters _ + 1 <=? _); [|discriminate 1].
  destruct (_ + 1 <=? _); [|discriminate 1].
  intros [= <- <-]. apply N.ltb_lt in Hi. apply N.leb_le in Hnow. done.
Qed.

(** X3: a successful vote writes nothing but the voter's flag and the
    counters of the proposal voted on: [proposalCount], every other proposal
    slot, the proposal's id, title, description, proposer, [endDate] and
    [isExecuted], and the flags of all other addresses are as before. *)
Theorem vote_frame st i support env st' evs
    (Hcall : call (Governance.vote i support) env st = (st', Success () evs)) :
  proposalCount st' = proposalCount st
  ∧ (∀ j, j ≠ i → proposals st' !! j = proposals st !! j)
  ∧ Proposal.id (slot st' i) = Proposal.id (slot st i)
  ∧ Proposal.title (slot st' i) = Proposal.title (slot st i)
  ∧ Proposal.description (slot st' i) = Proposal.description (slot st i)
  ∧ Proposal.proposer (slot st' i) = Proposal.proposer (slot st i)
  ∧ Proposal.endDate (slot st' i) = Proposal.endDate (slot st i)
  ∧ Proposal.isExecuted (slot st' i) = Proposal.isExecuted (slot st i)
  ∧ (∀ a, a ≠ msg_sender env →
          Proposal.hasVoted (slot st' i) !! a = Proposal.hasVoted (slot st i) !! a).
Proof.
  apply vote_success in Hcall as (_ & _ & _ & -> & _).
  rewrite slot_insert_eq. cbn [proposalCount proposals].
  split_and!; try reflexivity.
  - intros j Hj. by rewrite lookup_insert_ne.
  - intros a Ha. simpl. by rewrite lookup_insert_ne.
Qed.

Lemma vote_frame_witness :
  ∃ st' evs,
    call (Governance.vote 0 false) (mkEnv bob t0) registry3 = (st', Success () evs)
    ∧ proposalCount st' = 3
    ∧ proposals st' !! 1 = proposals registry3 !! 1.
Proof.
  eexists _, _. split; [vm_compute; reflexivity|].
  match goal with |- context [proposalCount ?s] =>
    destruct (vote_frame registry3 0 false (mkEnv bob t0) s
                [VoteCast 0 bob false 0 1]) as (Hcount & Hother & _)
  end.
  - vm_compute. reflexivity.
  - split; [exact Hcount|]. apply Hother. discriminate.
Defined.

(** X4: after a successful vote, [hasVoted] answers true for the sender on
    that proposal, and a further vote by the same sender on it is refused
    without any change, at any time and for either [support]. *)
Theorem vote_then_hasVoted st i support env st' evs
    (Hcall : call (Governance.vote i support) env st = (st', Success () evs)) :
  (∀ env', call (Governance.hasVoted i (msg_sender env)) env' st'
           = (st', Success true []))
  ∧ (∀ support' now',
       ∃ e, call (Governance.vote i support') (mkEnv (msg_sender env) now') st'
            = (st', Failure e)).
Proof.
  apply vote_success in Hcall as (Hi & _ & _ & -> & _).
  apply N.ltb_lt in Hi.
  assert (Proposal.voted (voted_on (msg_sender env) support (slot st i))
            (msg_sender env) = true) as Hv.
  { unfold Proposal.voted; simpl. by rewrite lookup_insert_eq. }
  split.
  - intros env'. rewrite hasVoted_call. cbn [proposalCount].
    by rewrite Hi, slot_insert_eq, Hv.
  - intros support' now'. rewrite vote_call. cbv zeta.
    cbn [proposalCount msg_sender block_timestamp].
    rewrite Hi, slot_insert_eq, Hv. destruct (_ <=? _); eauto.
Qed.

Lemma vote_then_hasVoted_witness :
  ∃ st', (call (Governance.vote 0 true) (mkEnv bob t0) registry1).1 = st'
         ∧ call (Governance.hasVoted 0 bob) (mkEnv alice t0) st'
           = (st', Success true []).
Proof.
  eexists. split; [vm_compute; reflexivity|].
  match goal with |- call _ _ ?s = _ =>
    refine (proj1 (vote_then_hasVoted registry1 0 true (mkEnv bob t0) s
                     [VoteCast 0 bob true 1 0] _) (mkEnv alice t0))
  end.
  vm_compute. reflexivity.
Defined.

(** X5: a successful vote emits exactly one event,
    [VoteCast(proposalId, msg.sender, support, votesFor, votesAgainst)], and
    the two tallies in it are those stored after the vote, the ones
    [getProposal] then returns. *)
Theorem vote_event st i support env st' evs
    (Hcall : call (Governance.vote i support) env st = (st', Success () evs)) :
  evs = [VoteCast i (msg_sender env) support
           (Proposal.votesFor (slot st' i)) (Proposal.votesAgainst (slot st' i))]
  ∧ (∀ env', ∃ id title description proposer endDate totalVoters isExecuted,
       call (Governance.getProposal i) env' st'
       = (st', Success (id, title, description, proposer, endDate,
                        Proposal.votesFor (slot st' i),
                        Proposal.votesAgainst (slot st' i),
                        totalVoters, isExecuted) [])).
Proof.
  apply vote_success in Hcall as (Hi & _ & _ & -> & ->).
  apply N.ltb_lt in Hi. rewrite slot_insert_eq. split; [reflexivity|].
  intros env'. rewrite getProposal_call. cbn [proposalCount]. rewrite Hi.
  cbv zeta. rewrite slot_insert_eq. by eexists _, _, _, _, _, _, _.
Qed.

Lemma vote_event_witness :
  (call (Governance.vote 0 false) (mkEnv bob (t0 + day))
     (run [(mkEnv alice t0, lower_fees); (mkEnv alice t0, VoteFor 0)]
        Governance.constructor)).2
  = Success () [VoteCast 0 bob false 1 1].
Proof.
  pose proof (vote_event
                (run [(mkEnv alice t0, lower_fees); (mkEnv alice t0, VoteFor 0)]
                   Governance.constructor)
                0 false (mkEnv bob (t0 + day)) registry2
                [VoteCast 0 bob false 1 1]) as H.
  destruct H as [Hevs _]; [vm_compute; reflexivity|].
  vm_compute. reflexivity.
Defined.

(** ** Creating proposals, continued *)

Lemma createProposal_inversion title description env st st' i evs :
  call (Governance.createProposal title description) env st
  = (st', Success i evs) →
  i = proposalCount st
  ∧ st' = mkStorage
            (<[proposalCount st :=
                 created (proposalCount st) title description env
                   (slot st (proposalCount st))]> (proposals st))
            (proposalCount st + 1)
  ∧ evs = [ProposalCreated (proposalCount st) title (msg_sender env)
             (block_timestamp env + Governance.VOTING_PERIOD)].
Proof.
  rewrite createProposal_call.
  destruct (nonempty title); [|discriminate 1].
  destruct (nonempty description); [|discriminate 1].
  destruct (proposalCount st + 1 <=? _); [|discriminate 1].
  destruct (block_timestamp env + _ <=? _); [|discriminate 1].
  cbv zeta. intros [= <- <- <-]. done.
Qed.

(** X6: a successful [createProposal] emits exactly one event,
    [ProposalCreated(proposalId, title, msg.sender, endDate)], carrying the
    returned id and the stored deadline, and stores the title, the
    description and the sender as proposer under that id, whatever the
    storage was. *)
Theorem createProposal_event st title description env st' i evs
    (Hcall : call (Governance.createProposal title description) env st
             = (st', Success i evs)) :
  evs = [ProposalCreated i title (msg_sender env) (Proposal.endDate (slot st' i))]
  ∧ Proposal.id (slot st' i) = i
  ∧ Proposal.title (slot st' i) = title
  ∧ Proposal.description (slot st' i) = description
  ∧ Proposal.proposer (slot st' i) = msg_sender env
  ∧ Proposal.endDate (slot st' i) = block_timestamp env + 14 * 86400.
Proof.
  apply createProposal_inversion in Hcall as (-> & -> & ->).
  rewrite slot_insert_eq. split_and!; reflexivity.
Qed.

Lemma createProposal_event_witness :
  (call (Governance.createProposal "Lower fees" "Reduce fees to 0.1%")
     (mkEnv alice t0) Governance.constructor).2
  = Success 0 [ProposalCreated 0 "Lower fees" alice (t0 + 14 * day)].
Proof.
  destruct (createProposal_event Governance.constructor "Lower fees"
              "Reduce fees to 0.1%" (mkEnv alice t0) registry1 0
              [ProposalCreated 0 "Lower fees" alice (t0 + 14 * day)])
    as [Hevs _]; vm_compute; reflexivity.
Defined.

(** X7: [createProposal] tests the title first, then the description (so
    two empty strings give the title error); with both non-empty it aborts
    with the overflow panic, leaving the storage unchanged, exactly when
    [proposalCount + 1] or [block.timestamp + 14 days] leaves the [uint256]
    range, and succeeds otherwise. *)
Theorem createProposal_outcome st title description env :
  (title = "" →
     call (Governance.createProposal title description) env st
     = (st, Failure (Revert "Title cannot be empty")))
  ∧ (title ≠ "" → description = "" →
     call (Governance.createProposal title description) env st
     = (st, Failure (Revert "Description cannot be empty")))
  ∧ (title ≠ "" → description ≠ "" →
     (MAX_UINT256 < proposalCount st + 1
      ∨ MAX_UINT256 < block_timestamp env + 14 * 86400) →
     call (Governance.createProposal title description) env st
     = (st, Failure (Panic 17)))
  ∧ (title ≠ "" → description ≠ "" →
     proposalCount st + 1 ≤ MAX_UINT256 →
     block_timestamp env + 14 * 86400 ≤ MAX_UINT256 →
     succeeded (call (Governance.createProposal title description) env st).2
     = true).
Proof.
  rewrite createProposal_call. change Governance.VOTING_PERIOD with (14 * 86400).
  split_and!.
  - intros ->. reflexivity.
  - intros Ht ->. apply nonempty_spec in Ht. by rewrite Ht.
  - intros Ht Hd Hover. apply nonempty_spec in Ht, Hd. rewrite Ht, Hd.
    destruct (N.leb_spec (proposalCount st + 1) MAX_UINT256); [|reflexivity].
    destruct (N.leb_spec (block_timestamp env + 14 * 86400) MAX_UINT256);
      [lia|reflexivity].
  - intros Ht Hd Hc Hnow. apply nonempty_spec in Ht, Hd.
    apply N.leb_le in Hc, Hnow. by rewrite Ht, Hd, Hc, Hnow.
Qed.

Lemma createProposal_outcome_witness :
  call (Governance.createProposal "Lower fees" "Reduce fees to 0.1%")
    (mkEnv alice MAX_UINT256) registry1
  = (registry1, Failure (Panic 17)).
Proof.
  refine (proj1 (proj2 (proj2 (createProposal_outcome registry1 "Lower fees"
                                 "Reduce fees to 0.1%" (mkEnv alice MAX_UINT256))))
            _ _ _).
  - discriminate.
  - discriminate.
  - right. vm_compute. reflexivity.
Defined.

(** ** Sequences of calls *)

(** A relation between the old and the new struct of an existing proposal
    that one vote establishes holds along every sequence of calls. *)
Lemma run_existing (R : Proposal.t → Proposal.t → Prop) :
  (∀ p, R p p) →
  (∀ p q r, R p q → R q r → R p r) →
  (∀ who support p, R p (voted_on who support p)) →
  ∀ trace st i, i < proposalCount st →
    i < proposalCount (run trace st) ∧ R (slot st i) (slot (run trace st) i).
Proof.
  intros Hrefl Htrans Hvote trace.
  induction trace as [|[env c] rest IH]; intros st i Hi; simpl; [by split|].
  pose proof (execute_effect c env st) as Heff.
  pose proof (effect_count _ _ _ Heff) as Hcount.
  destruct (IH (execute c env st) i) as [Hi' HR]; [lia|].
  split; [exact Hi'|].
  apply Htrans with (slot (execute c env st) i); [|exact HR].
  destruct (effect_existing _ _ _ i Heff Hi) as [->|(_ & _ & support & ->)];
    [apply Hrefl | apply Hvote].
Qed.

(** X8: along any sequence of external calls, from any storage, the proposal
    count and the three counters of an existing proposal never decrease. *)
Theorem counters_monotone trace st i (Hi : i < proposalCount st) :
  proposalCount st ≤ proposalCount (run trace st)
  ∧ Proposal.votesFor (slot st i) ≤ Proposal.votesFor (slot (run trace st) i)
  ∧ Proposal.votesAgainst (slot st i)
    ≤ Proposal.votesAgainst (slot (run trace st) i)
  ∧ Proposal.totalVoters (slot st i)
    ≤ Proposal.totalVoters (slot (run trace st) i).
Proof.
  split.
  - clear i Hi. revert st.
    induction trace as [|[env c] rest IH]; intros st; simpl; [lia|].
    pose proof (effect_count _ _ _ (execute_effect c env st)).
    specialize (IH (execute c env st)). lia.
  - apply (run_existing
             (λ p q, Proposal.votesFor p ≤ Proposal.votesFor q
                     ∧ Proposal.votesAgainst p ≤ Proposal.votesAgainst q
                     ∧ Proposal.totalVoters p ≤ Proposal.totalVoters q));
      [lia | lia | | exact Hi].
    intros who support p. destruct support; simpl; lia.
Qed.

Lemma counters_monotone_witness :
  Proposal.totalVoters (slot registry1 0)
  ≤ Proposal.totalVoters
      (slot (run [(mkEnv alice t0, VoteFor 0); (mkEnv bob (t0 + day), Vote 0 false)]
               registry1) 0).
Proof.
  refine (proj2 (proj2 (proj2 (counters_monotone
    [(mkEnv alice t0, VoteFor 0); (mkEnv bob (t0 + day), Vote 0 false)]
    registry1 0 _)))).
  reflexivity.
Defined.

(** X9: along any sequence of external calls, from any storage, an existing
    proposal keeps its id, title, description, proposer, [endDate] and
    [isExecuted]; no call rewrites them. *)
Theorem proposal_immutable trace st i (Hi : i < proposalCount st) :
  Proposal.id (slot (run trace st) i) = Proposal.id (slot st i)
  ∧ Proposal.title (slot (run trace st) i) = Proposal.title (slot st i)
  ∧ Proposal.description (slot (run trace st) i)
    = Proposal.description (slot st i)
  ∧ Proposal.proposer (slot (run trace st) i) = Proposal.proposer (slot st i)
  ∧ Proposal.endDate (slot (run trace st) i) = Proposal.endDate (slot st i)
  ∧ Proposal.isExecuted (slot (run trace st) i)
    = Proposal.isExecuted (slot st i).
Proof.
  apply (run_existing
           (λ p q, Proposal.id q = Proposal.id p
                   ∧ Proposal.title q = Proposal.title p
                   ∧ Proposal.description q = Proposal.description p
                   ∧ Proposal.proposer q = Proposal.proposer p
                   ∧ Proposal.endDate q = Proposal.endDate p
                   ∧ Proposal.isExecuted q = Proposal.isExecuted p));
    [done | | done | exact Hi].
  intros p q r (-> & -> & -> & -> & -> & ->) (-> & -> & -> & -> & -> & ->). done.
Qed.

Lemma proposal_immutable_witness :
  Proposal.endDate (slot (run (ballot 3) registry1) 0) = t0 + 14 * day
  ∧ Proposal.title (slot (run (ballot 3) registry1) 0) = "Lower fees".
Proof.
  destruct (proposal_immutable (ballot 3) registry1 0)
    as (_ & Htitle & _ & _ & Hend & _); [reflexivity|].
  rewrite Htitle, Hend. split; reflexivity.
Defined.

(** X10: a recorded vote is permanent: once [hasVoted] holds for an address
    on an existing proposal it holds after any sequence of calls, and every
    later [vote] by that address on that proposal is refused without any
    change. *)
Theorem vote_permanent trace st i a
    (Hi : i < proposalCount st) (Hvoted : Proposal.voted (slot st i) a = true) :
  Proposal.voted (slot (run trace st) i) a = true
  ∧ (∀ env, call (Governance.hasVoted i a) env (run trace st)
            = (run trace st, Success true []))
  ∧ (∀ support now,
       ∃ e, call (Governance.vote i support) (mkEnv a now) (run trace st)
            = (run trace st, Failure e)).
Proof.
  destruct (run_existing
              (λ p q, Proposal.voted p a = true → Proposal.voted q a = true))
    with (trace := trace) (st := st) (i := i) as [Hi' Hkeep]; auto.
  { intros who support p. unfold Proposal.voted; simpl.
    destruct (decide (who = a)) as [->|Hne].
    - by rewrite lookup_insert_eq.
    - by rewrite lookup_insert_ne. }
  specialize (Hkeep Hvoted). apply N.ltb_lt in Hi'. split_and!; [exact Hkeep| |].
  - intros env. rewrite hasVoted_call. by rewrite Hi', Hkeep.
  - intros support now. rewrite vote_call. cbv zeta.
    cbn [msg_sender block_timestamp]. rewrite Hi', Hkeep.
    destruct (_ <=? _); eauto.
Qed.

Lemma vote_permanent_witness :
  Proposal.voted (slot (run (ballot 3) registry2) 0) alice = true.
Proof.
  refine (proj1 (vote_permanent (ballot 3) registry2 0 alice _ _)); reflexivity.
Defined.

(** X11: in a reachable state [totalVoters] of a proposal is the number of
    addresses recorded in its [hasVoted] mapping, every recorded flag is
    true, and so [totalVoters] is at most the number of addresses, 2^160. *)
Theorem totalVoters_distinct st i (Hst : reachable st) :
  Proposal.totalVoters (slot st i)
  = N.of_nat (size (Proposal.hasVoted (slot st i)))
  ∧ (∀ a, is_Some (Proposal.hasVoted (slot st i) !! a)
          ↔ Proposal.voted (slot st i) a = true)
  ∧ (∀ a, Proposal.voted (slot st i) a = true → a ≤ MAX_ADDRESS)
  ∧ Proposal.totalVoters (slot st i) ≤ 2 ^ 160.
Proof.
  pose proof (inv_slot st i (reachable_inv st Hst)) as Hp.
  split_and!.
  - apply (inv_distinct _ Hp).
  - intros a. unfold Proposal.voted. split.
    + intros [b Hb]. rewrite Hb. by apply (inv_voters _ Hp) in Hb as [-> _].
    + destruct (Proposal.hasVoted (slot st i) !! a); [eauto|discriminate].
  - intros a. unfold Proposal.voted.
    destruct (Proposal.hasVoted (slot st i) !! a) as [b|] eqn:Hb; [|discriminate].
    intros _. by apply (inv_voters _ Hp) in Hb as [_ ?].
  - apply (voters_bounded _ Hp).
Qed.

Lemma totalVoters_distinct_witness :
  Proposal.totalVoters (slot (run (ballot 1000) Governance.constructor) 0)
  = N.of_nat (size (Proposal.hasVoted
                      (slot (run (ballot 1000) Governance.constructor) 0))).
Proof.
  refine (proj1 (totalVoters_distinct _ 0 (reachable_ballot 1000 _))).
  vm_compute. reflexivity.
Defined.

(** ** After the deadline *)

Lemma status_after_deadline now now' p :
  Proposal.endDate p < now → Proposal.endDate p < now' →
  status now p = status now' p.
Proof.
  intros H H'. unfold status.
  apply N.ltb_lt in H, H'. by rewrite H, H'.
Qed.

(** X12: once the deadline of an existing proposal has passed, calls made
    later leave the proposal exactly as it is, and [getProposalStatus]
    gives the same answer at every later time: the verdict is final. *)
Theorem verdict_final trace st i
    (Hi : i < proposalCount st)
    (Hlater : later_than (Proposal.endDate (slot st i)) trace) :
  slot (run trace st) i = slot st i
  ∧ (∀ env env',
       Proposal.endDate (slot st i) < block_timestamp env →
       Proposal.endDate (slot st i) < block_timestamp env' →
       (call (Governance.getProposalStatus i) env' (run trace st)).2
       = (call (Governance.getProposalStatus i) env st).2).
Proof.
  assert (i < proposalCount (run trace st) ∧ slot (run trace st) i = slot st i)
    as [Hi' Hslot].
  { revert st Hi Hlater.
    induction trace as [|[env c] rest IH]; intros st Hi Hlater; simpl; [done|].
    apply later_than_cons in Hlater as [Hnow Hrest]. simpl in Hnow.
    pose proof (execute_effect c env st) as Heff.
    pose proof (effect_count _ _ _ Heff) as Hcount.
    assert (slot (execute c env st) i = slot st i) as Hstep.
    { destruct (effect_existing _ _ _ i Heff Hi) as [->|(Hopen & _)]; [done|lia]. }
    destruct (IH (execute c env st)) as [Hi' Hslot]; [lia|by rewrite Hstep|].
    split; [exact Hi'|]. by rewrite Hslot. }
  split; [exact Hslot|]. intros env env' Hnow Hnow'.
  apply N.ltb_lt in Hi, Hi'.
  rewrite !getProposalStatus_call, Hi, Hi', Hslot. simpl.
  by rewrite (status_after_deadline _ _ _ Hnow Hnow').
Qed.

Lemma verdict_final_witness :
  (call (Governance.getProposalStatus 0) (mkEnv alice (t0 + 30 * day))
     (run [(mkEnv bob (t0 + 15 * day), VoteFor 0);
           (mkEnv bob (t0 + 16 * day), lower_fees)] registry2)).2
  = Success "Failed" [].
Proof.
  destruct (verdict_final
              [(mkEnv bob (t0 + 15 * day), VoteFor 0);
               (mkEnv bob (t0 + 16 * day), lower_fees)] registry2 0)
    as [_ Hsame].
  - reflexivity.
  - repeat constructor.
  - rewrite (Hsame (mkEnv alice (t0 + 15 * day)) (mkEnv alice (t0 + 30 * day)));
      reflexivity.
Defined.

(** X13: in a reachable state [getProposalStatus] answers "Passed" only
    after the deadline, with more votes for than against and at least 1000
    votes for, hence with at least 1000 distinct addresses recorded as
    voters; and it answers "Active" only up to the deadline. *)
Theorem passed_sound st i env st' evs (Hst : reachable st) :
  (call (Governance.getProposalStatus i) env st = (st', Success "Passed" evs) →
     i < proposalCount st
     ∧ Proposal.endDate (slot st i) < block_timestamp env
     ∧ Proposal.votesAgainst (slot st i) < Proposal.votesFor (slot st i)
     ∧ 1000 ≤ Proposal.votesFor (slot st i)
     ∧ 1000 ≤ N.of_nat (size (Proposal.hasVoted (slot st i))))
  ∧ (call (Governance.getProposalStatus i) env st = (st', Success "Active" evs) →
     i < proposalCount st
     ∧ block_timestamp env ≤ Proposal.endDate (slot st i)).
Proof.
  pose proof (inv_slot st i (reachable_inv st Hst)) as Hp.
  pose proof (inv_tally _ Hp) as Htally.
  rewrite getProposalStatus_call.
  destruct (N.ltb_spec i (proposalCount st)) as [Hi|Hi];
    [|split; discriminate 1].
  unfold status, Governance.MIN_VOTES_TO_PASS. rewrite (inv_not_executed _ Hp).
  destruct (N.ltb_spec (Proposal.endDate (slot st i)) (block_timestamp env)).
  - destruct (N.ltb_spec (Proposal.votesAgainst (slot st i))
                (Proposal.votesFor (slot st i)));
      destruct (N.leb_spec 1000 (Proposal.votesFor (slot st i))); simpl;
      split; try discriminate 1.
    intros _. rewrite <-(inv_distinct _ Hp). split_and!; try done; lia.
  - split; [discriminate 1|]. by intros _.
Qed.

Lemma passed_sound_witness :
  1000 ≤ N.of_nat (size (Proposal.hasVoted
                           (slot (run (ballot 1000) Governance.constructor) 0))).
Proof.
  refine (proj2 (proj2 (proj2 (proj2
    (proj1 (passed_sound (run (ballot 1000) Governance.constructor) 0
              (mkEnv alice (t0 + 15 * day))
              (run (ballot 1000) Governance.constructor) []
              (reachable_ballot 1000 _)) _))))).
  - vm_compute. reflexivity.
  - rewrite getProposalStatus_call.
    assert ((0 <? proposalCount (run (ballot 1000) Governance.constructor))
            = true) as -> by (vm_compute; reflexivity).
    assert (status (block_timestamp (mkEnv alice (t0 + 15 * day)))
              (slot (run (ballot 1000) Governance.constructor) 0) = "Passed")
      as -> by (vm_compute; reflexivity).
    reflexivity.
Defined.

(** ** The unused modifier *)

(** X14: the [notExecuted] modifier never rejects in a reachable state: a
    body run under it behaves exactly as the body alone. *)
Theorem notExecuted_passes {A} (body : M A) st i env events
    (Hst : reachable st) :
  Governance.notExecuted i body env (mkWorld st events)
  = body env (mkWorld st events).
Proof.
  pose proof (inv_not_executed _ (inv_slot st i (reachable_inv st Hst))) as Hexec.
  unfold Governance.notExecuted, mbind, M_bind, load, require.
  cbn [store]. by rewrite Hexec.
Qed.

Lemma notExecuted_passes_witness :
  Governance.notExecuted 0 (Governance.vote 0 true) (mkEnv bob t0)
    (mkWorld registry1 [])
  = Governance.vote 0 true (mkEnv bob t0) (mkWorld registry1 []).
Proof.
  exact (notExecuted_passes (Governance.vote 0 true) registry1 0 (mkEnv bob t0)
           [] reachable_registry1).
Defined.

(** ** Counting proposals *)

Lemma execute_count_vote i support env st :
  proposalCount (call (Governance.vote i support) env st).1 = proposalCount st.
Proof.
  destruct (call (Governance.vote i support) env st) as [st' [[] evs|e]] eqn:E.
  - by apply vote_success in E as (_ & _ & _ & -> & _).
  - by apply call_failure in E as ->.
Qed.

Lemma execute_count c env st :
  proposalCount (execute c env st)
  = proposalCount st
    + match c with
      | CreateProposal t d =>
          if succeeded (call (Governance.createProposal t d) env st).2
          then 1 else 0
      | _ => 0
      end.
Proof.
  destruct c; cbv beta iota delta [execute]; rewrite ?N.add_0_r.
  - rewrite createProposal_call.
    destruct (nonempty title); [|cbn [fst snd succeeded proposalCount]; lia].
    destruct (nonempty description);
      [|cbn [fst snd succeeded proposalCount]; lia].
    destruct (proposalCount st + 1 <=? _);
      [|cbn [fst snd succeeded proposalCount]; lia].
    destruct (block_timestamp env + _ <=? _);
      cbn [fst snd succeeded proposalCount]; lia.
  - exact (execute_count_vote _ _ _ _).
  - exact (execute_count_vote _ _ _ _).
  - exact (execute_count_vote _ _ _ _).
  - rewrite getProposal_call. by destruct (_ <? _).
  - rewrite getProposalStatus_call. by destruct (_ <? _).
  - rewrite hasVoted_call. by destruct (_ <? _).
  - by rewrite getTotalProposals_call.
Qed.

(** X15: after any sequence of external calls, from any storage,
    [getTotalProposals] has grown by the number of [createProposal] calls of
    the sequence that succeeded; votes, views and failed calls do not count. *)
Theorem proposalCount_counts_creations trace st env :
  call Governance.getTotalProposals env (run trace st)
  = (run trace st, Success (proposalCount st + creations trace st) []).
Proof.
  rewrite getTotalProposals_call. f_equal. f_equal.
  revert st. induction trace as [|[env' c] rest IH]; intros st; simpl.
  - by rewrite N.add_0_r.
  - rewrite IH, execute_count. lia.
Qed.

(** ** Stored proposals *)

Lemma stored_wellformed st :
  reachable st → ∀ i, i < proposalCount st →
  Proposal.id (slot st i) = i
  ∧ Proposal.title (slot st i) ≠ ""
  ∧ Proposal.description (slot st i) ≠ ""
  ∧ Proposal.proposer (slot st i) ≤ MAX_ADDRESS
  ∧ Governance.VOTING_PERIOD ≤ Proposal.endDate (slot st i).
Proof.
  induction 1 as [|st c env Hst IH [Hwho _]]; intros i Hi.
  - simpl in Hi. lia.
  - destruct (execute_effect c env st)
      as [|title description Ht Hd _ _|j support Hj _ _].
    + by apply IH.
    + simpl in Hi. destruct (decide (proposalCount st = i)) as [<-|Hne].
      * rewrite slot_insert_eq. unfold created; simpl.
        apply nonempty_spec in Ht, Hd. split_and!; try done. lia.
      * rewrite slot_insert_other by done. apply IH. lia.
    + simpl in Hi. destruct (decide (j = i)) as [->|Hne].
      * rewrite slot_insert_eq. simpl. by apply IH.
      * rewrite slot_insert_other by done. by apply IH.
Qed.

(** X16: in a reachable state [getProposal(i)] on an existing proposal
    returns [i] as its id, a non-empty title and description, a proposer that
    is an [address], a deadline of at least 14 days, and [isExecuted] false. *)
Theorem getProposal_wellformed st i env (Hst : reachable st)
    (Hi : i < proposalCount st) :
  ∃ title description proposer endDate votesFor votesAgainst totalVoters,
    call (Governance.getProposal i) env st
    = (st, Success (i, title, description, proposer, endDate, votesFor,
                    votesAgainst, totalVoters, false) [])
    ∧ title ≠ "" ∧ description ≠ ""
    ∧ proposer ≤ MAX_ADDRESS
    ∧ 14 * 86400 ≤ endDate ≤ MAX_UINT256
    ∧ votesFor + votesAgainst = totalVoters.
Proof.
  destruct (stored_wellformed st Hst i Hi) as (Hid & Ht & Hd & Hp & He).
  pose proof (inv_slot st i (reachable_inv st Hst)) as Hinv.
  eexists _, _, _, _, _, _, _. rewrite getProposal_call.
  apply N.ltb_lt in Hi. rewrite Hi. cbv zeta.
  rewrite Hid, (inv_not_executed _ Hinv). split; [reflexivity|].
  split_and!; try done.
  - apply (inv_deadline _ Hinv).
  - apply (inv_tally _ Hinv).
Qed.

Lemma getProposal_wellformed_witness :
  ∃ title description proposer endDate votesFor votesAgainst totalVoters,
    call (Governance.getProposal 0) (mkEnv bob t0) registry2
    = (registry2, Success (0, title, description, proposer, endDate, votesFor,
                           votesAgainst, totalVoters, false) [])
    ∧ title ≠ "".
Proof.
  destruct (getProposal_wellformed registry2 0 (mkEnv bob t0)
              reachable_registry2)
    as (t & d & p & e & vf & va & tv & Hcall & Ht & _); [reflexivity|].
  exists t, d, p, e, vf, va, tv. split; [exact Hcall | exact Ht].
Defined.

(** ** Tallies count the accepted votes *)

Lemma vote_tally j s env st i :
  Proposal.votesFor (slot (call (Governance.vote j s) env st).1 i)
  = Proposal.votesFor (slot st i)
    + (if (j =? i) && Bool.eqb s true
          && succeeded (call (Governance.vote j s) env st).2 then 1 else 0)
  ∧ Proposal.votesAgainst (slot (call (Governance.vote j s) env st).1 i)
    = Proposal.votesAgainst (slot st i)
      + (if (j =? i) && Bool.eqb s false
            && succeeded (call (Governance.vote j s) env st).2 then 1 else 0).
Proof.
  destruct (call (Governance.vote j s) env st) as [st' [[] evs|e]] eqn:E;
    cbn [fst snd succeeded].
  - apply vote_success in E as (_ & _ & _ & -> & _).
    destruct (N.eqb_spec j i) as [->|Hne].
    + rewrite slot_insert_eq. destruct s; simpl; lia.
    + rewrite slot_insert_other by done. simpl. lia.
  - apply call_failure in E as ->. rewrite !andb_false_r. lia.
Qed.

Lemma createProposal_effect_tally title description env st i :
  inv st →
  Proposal.votesFor
    (slot (call (Governance.createProposal title description) env st).1 i)
  = Proposal.votesFor (slot st i) + 0
  ∧ Proposal.votesAgainst
      (slot (call (Governance.createProposal title description) env st).1 i)
    = Proposal.votesAgainst (slot st i) + 0.
Proof.
  intros Hinv. rewrite !N.add_0_r.
  destruct (call (Governance.createProposal title description) env st)
    as [st' [k evs|e]] eqn:E; cbn [fst].
  - apply createProposal_inversion in E as (_ & -> & _).
    destruct (decide (proposalCount st = i)) as [<-|Hne].
    + rewrite slot_insert_eq, (inv_fresh st _ Hinv) by lia. done.
    + by rewrite slot_insert_other.
  - by apply call_failure in E as ->.
Qed.

Lemma execute_tally c env st i :
  inv st →
  Proposal.votesFor (slot (execute c env st) i)
  = Proposal.votesFor (slot st i) + accepted_vote i true c env st
  ∧ Proposal.votesAgainst (slot (execute c env st) i)
    = Proposal.votesAgainst (slot st i) + accepted_vote i false c env st.
Proof.
  intros Hinv.
  assert (∀ st', st' = st →
            Proposal.votesFor (slot st' i) = Proposal.votesFor (slot st i) + 0
            ∧ Proposal.votesAgainst (slot st' i)
              = Proposal.votesAgainst (slot st i) + 0) as Hsame.
  { intros st' ->. lia. }
  destruct c; cbv beta iota delta [execute accepted_vote vote_of].
  - apply createProposal_effect_tally; exact Hinv.
  - exact (vote_tally _ _ _ _ _).
  - exact (vote_tally _ _ _ _ _).
  - exact (vote_tally _ _ _ _ _).
  - apply Hsame. rewrite getProposal_call. by destruct (_ <? _).
  - apply Hsame. rewrite getProposalStatus_call. by destruct (_ <? _).
  - apply Hsame. rewrite hasVoted_call. by destruct (_ <? _).
  - apply Hsame. by rewrite getTotalProposals_call.
Qed.

(** X17: from a reachable state, after any sequence of calls by well-typed
    callers, [votesFor] and [votesAgainst] of every proposal slot have grown
    by exactly the number of votes for, respectively against, that the
    contract accepted in the sequence ([vote], [voteFor] and [voteAgainst]
    alike), and [totalVoters] by their sum. *)
Theorem tallies_count_votes trace st i
    (Hst : reachable st) (Htrace : valid_trace trace) :
  Proposal.votesFor (slot (run trace st) i)
  = Proposal.votesFor (slot st i) + accepted i true trace st
  ∧ Proposal.votesAgainst (slot (run trace st) i)
    = Proposal.votesAgainst (slot st i) + accepted i false trace st
  ∧ Proposal.totalVoters (slot (run trace st) i)
    = Proposal.totalVoters (slot st i)
      + accepted i true trace st + accepted i false trace st.
Proof.
  assert (Proposal.votesFor (slot (run trace st) i)
          = Proposal.votesFor (slot st i) + accepted i true trace st
          ∧ Proposal.votesAgainst (slot (run trace st) i)
            = Proposal.votesAgainst (slot st i) + accepted i false trace st)
    as [Hfor Hagainst].
  { revert st Hst Htrace.
    induction trace as [|[env c] rest IH]; intros st Hst Htrace; simpl.
    - lia.
    - inversion Htrace as [|? ? Henv Hrest]; subst.
      destruct (IH (execute c env st)) as [Hfor Hagainst];
        [by apply reachable_call|done|].
      destruct (execute_tally c env st i (reachable_inv st Hst)) as [Hf Ha].
      rewrite Hfor, Hagainst, Hf, Ha. lia. }
  split_and!; [exact Hfor|exact Hagainst|].
  pose proof (inv_tally _ (inv_slot st i (reachable_inv st Hst))).
  pose proof (inv_tally _ (inv_slot _ i
    (reachable_inv _ (reachable_run trace st Hst Htrace)))).
  lia.
Qed.

Lemma tallies_count_votes_witness :
  Proposal.votesFor (slot (run (ballot 5) Governance.constructor) 0) = 5
  ∧ Proposal.votesAgainst (slot (run (ballot 5) Governance.constructor) 0) = 1.
Proof.
  destruct (tallies_count_votes (ballot 5) Governance.constructor 0)
    as (Hfor & Hagainst & _).
  - constructor.
  - apply valid_trace_check. vm_compute. reflexivity.
  - rewrite Hfor, Hagainst. split; vm_compute; reflexivity.
Defined.

(** ** Order of votes *)

Lemma voted_on_commute a1 s1 a2 s2 p :
  a1 ≠ a2 →
  voted_on a2 s2 (voted_on a1 s1 p) = voted_on a1 s1 (voted_on a2 s2 p).
Proof.
  intros Hne. unfold voted_on; simpl.
  f_equal; try (destruct s1, s2; lia). by apply insert_insert_ne.
Qed.

(** Whether a vote is accepted does not depend on an earlier vote on another
    proposal or by another sender. *)
Lemma vote_independent st i s1 env1 j env2 :
  i ≠ j ∨ msg_sender env1 ≠ msg_sender env2 →
  let st1 := mkStorage (<[i := voted_on (msg_sender env1) s1 (slot st i)]>
                          (proposals st)) (proposalCount st) in
  (j <? proposalCount st1)
  && (block_timestamp env2 <=? Proposal.endDate (slot st1 j))
  && negb (Proposal.voted (slot st1 j) (msg_sender env2))
  = (j <? proposalCount st)
    && (block_timestamp env2 <=? Proposal.endDate (slot st j))
    && negb (Proposal.voted (slot st j) (msg_sender env2)).
Proof.
  intros Hd st1. subst st1. cbn [proposalCount].
  destruct (decide (i = j)) as [->|Hne].
  - rewrite slot_insert_eq. unfold Proposal.voted; simpl.
    rewrite lookup_insert_ne by (destruct Hd; congruence). done.
  - by rewrite slot_insert_other.
Qed.

(** X18: in a reachable state two votes on different proposals, or by
    different senders, commute: applied in either order they leave the same
    storage (each keeping its own sender and timestamp). *)
Theorem votes_commute st i s1 env1 j s2 env2
    (Hst : reachable st) (Henv1 : valid_env env1) (Henv2 : valid_env env2)
    (Hdistinct : i ≠ j ∨ msg_sender env1 ≠ msg_sender env2) :
  execute (Vote j s2) env2 (execute (Vote i s1) env1 st)
  = execute (Vote i s1) env1 (execute (Vote j s2) env2 st).
Proof.
  pose proof (reachable_inv _ Hst) as Hinv.
  pose proof (reachable_inv _ (reachable_call st (Vote i s1) env1 Hst Henv1))
    as Hinv1.
  pose proof (reachable_inv _ (reachable_call st (Vote j s2) env2 Hst Henv2))
    as Hinv2.
  destruct Henv1 as [Hw1 _], Henv2 as [Hw2 _].
  cbv beta iota delta [execute] in *.
  rewrite (vote_decided _ j s2 env2 Hinv1 Hw2), (vote_decided _ i s1 env1 Hinv2 Hw1).
  rewrite (vote_decided st i s1 env1 Hinv Hw1), (vote_decided st j s2 env2 Hinv Hw2).
  destruct ((i <? proposalCount st) && _ && _) eqn:Hok1;
    destruct ((j <? proposalCount st) && _ && _) eqn:Hok2.
  - rewrite (vote_independent st i s1 env1 j env2 Hdistinct), Hok2.
    rewrite (vote_independent st j s2 env2 i env1), Hok1
      by (destruct Hdistinct; [left|right]; congruence).
    cbn [proposals proposalCount]. f_equal.
    destruct (decide (i = j)) as [->|Hne].
    + rewrite !slot_insert_eq, !insert_insert_eq. f_equal.
      apply voted_on_commute. destruct Hdistinct; congruence.
    + rewrite !slot_insert_other by congruence.
      apply insert_insert_ne. congruence.
  - rewrite (vote_independent st i s1 env1 j env2 Hdistinct), Hok2.
    by rewrite Hok1.
  - rewrite (vote_independent st j s2 env2 i env1), Hok1
      by (destruct Hdistinct; [left|right]; congruence).
    done.
  - by rewrite Hok1.
Qed.

Lemma votes_commute_witness :
  execute (Vote 0 false) (mkEnv bob (t0 + day))
    (execute (Vote 0 true) (mkEnv alice t0) registry1)
  = execute (Vote 0 true) (mkEnv alice t0)
      (execute (Vote 0 false) (mkEnv bob (t0 + day)) registry1).
Proof.
  apply (votes_commute registry1 0 true (mkEnv alice t0) 0 false
           (mkEnv bob (t0 + day)) reachable_registry1).
  - apply valid_envb_spec. reflexivity.
  - apply valid_envb_spec. reflexivity.
  - right. discriminate.
Defined.

(** ** The wrappers and the visibility of [vote] *)

(** The unqualified call of the wrappers does not resolve: [vote] is
    [external]. *)
Remark wrappers_rejected i :
  voteFor_written i = None ∧ voteAgainst_written i = None.
Proof. split; reflexivity. Qed.

(** A wrapper vote through [this] is a vote by the contract. *)
Lemma wrapper_this_call self i support env st :
  call (wrapper_this self i support) env st
  = call (Governance.vote i support) (mkEnv self (block_timestamp env)) st.
Proof. by destruct support. Qed.

(** The reachable states are closed under wrapper votes through [this]. *)
Lemma reachable_wrapper_this self i support env st :
  reachable st → self ≤ MAX_ADDRESS → valid_env env →
  reachable (call (wrapper_this self i support) env st).1.
Proof.
  intros Hst Hself [_ Hnow]. rewrite wrapper_this_call.
  exact (reachable_call st (Vote i support)
           (mkEnv self (block_timestamp env)) Hst (conj Hself Hnow)).
Qed.


